(** * Request handlers of the card registry and chat gateway

    A shallow embedding of the Express handlers of [index.js]: the card
    registry routes ([/api/cards], [/api/cards/filter], [/api/cards/:id]) and
    the chat route ([/api/chat]).

    The handlers are written as programs of a small free monad whose
    operations are the two outbound calls of the service (a query sent to the
    row store, a prompt sent to the completion provider) and whose failure
    mode is a JavaScript exception.  Running a program against an environment
    records every outbound call in a trace, which is what the statements
    about "no call is made" speak about. *)

From Stdlib Require Import SpecFloat Ascii String.
From stdpp Require Import gmap strings list sorting pretty.

Local Open Scope string_scope.
Local Open Scope list_scope.

(** ** JavaScript values *)

(** The values that [express.json()] puts in [req.body] and that
    [res.json] receives.  A number is an IEEE 754 double. *)
#[local] Unset Elimination Schemes.
Inductive value : Type :=
  | VUndefined
  | VNull
  | VBool (b : bool)
  | VNum (f : spec_float)
  | VStr (s : string)
  | VArr (l : list value)
  | VObj (m : gmap string value).
#[local] Set Elimination Schemes.

Abbreviation object := (gmap string value).

(** Property read [o[k]]: an absent property reads as [undefined]. *)
Definition get (o : object) (k : string) : value := default VUndefined (o !! k).

(** [ToBoolean], the test behind [if (x)] and [!x]. *)
Definition truthy (v : value) : bool :=
  match v with
  | VUndefined => false
  | VNull => false
  | VBool b => b
  | VNum (S754_zero _) => false
  | VNum S754_nan => false
  | VNum _ => true
  | VStr s => negb (String.eqb s EmptyString)
  | VArr _ => true
  | VObj _ => true
  end.

(** An [Error] object caught by a handler, or the [error] member of a store
    reply; the handlers only read its [message]. *)
Record JsError : Type := mkError { message : string }.

Definition error_value (e : JsError) : value :=
  VObj {[ "message" := VStr (message e) ]}.

(** ** HTTP responses *)

Record Response : Type := mkResponse { status : nat; body : value }.

(** [res.status(c).json(b)] *)
Definition status_json (c : nat) (b : object) : Response :=
  {| status := c; body := VObj b |}.

(** [res.json(b)]: the status stays at its default, 200. *)
Definition json (b : value) : Response := {| status := 200; body := b |}.

(** ** Queries sent to the row store *)

(** What the chained builder calls of the store client accumulate before the
    query is awaited. *)
Inductive Filter : Type :=
  | Ilike (column pattern : string)
  | Eq (column val : string).

Inductive Verb : Type :=
  | Select
  | Insert (rows : list object)
  | Update (patch : object)
  | Delete.

Record Query : Type := mkQuery {
  table : string;
  verb : Verb;
  filters : list Filter;
  ordering : option (string * bool);
  returning : bool
}.

Module supabase.
Definition from (t : string) : Query :=
  {| table := t; verb := Select; filters := []; ordering := None;
     returning := false |}.

(** [.select('*')] on a table and [.select()] after a write both ask for
    the rows. *)
Definition select (q : Query) : Query :=
  {| table := table q; verb := verb q; filters := filters q;
     ordering := ordering q; returning := true |}.

Definition insert (rows : list object) (q : Query) : Query :=
  {| table := table q; verb := Insert rows; filters := filters q;
     ordering := ordering q; returning := false |}.

Definition update (patch : object) (q : Query) : Query :=
  {| table := table q; verb := Update patch; filters := filters q;
     ordering := ordering q; returning := false |}.

Definition delete (q : Query) : Query :=
  {| table := table q; verb := Delete; filters := filters q;
     ordering := ordering q; returning := false |}.

Definition order (column : string) (ascending : bool) (q : Query) : Query :=
  {| table := table q; verb := verb q; filters := filters q;
     ordering := Some (column, ascending); returning := returning q |}.

Definition ilike (column pattern : string) (q : Query) : Query :=
  {| table := table q; verb := verb q;
     filters := filters q ++ [Ilike column pattern];
     ordering := ordering q; returning := returning q |}.

Definition eq (column val : string) (q : Query) : Query :=
  {| table := table q; verb := verb q;
     filters := filters q ++ [Eq column val];
     ordering := ordering q; returning := returning q |}.
End supabase.

(** The [{ data, error }] pair every awaited query resolves to.  The client
    is never switched to throwing mode, so a failed call is reported through
    [error] and the promise itself does not reject. *)
Record Reply : Type := mkReply {
  data : option (list object);
  error : option JsError
}.

(** [if (error)] on the [error] member of a reply: an object is truthy,
    [null] is not. *)
Definition reported (e : option JsError) : bool :=
  match e with Some _ => true | None => false end.

(** What [model.generateContent] resolves to: the handler only calls
    [response.text()] on it, which returns the text or throws. *)
Record GenerateContentResult : Type := mkResult { text : JsError + string }.

(** ** Handler programs *)

Inductive Prog (A : Type) : Type :=
  | Ret (a : A)
  | Throw (e : JsError)
  | Query_ (q : Query) (k : Reply → Prog A)
  | Generate (model : string) (prompt : value)
             (k : JsError + GenerateContentResult → Prog A).
Arguments Ret {A} a.
Arguments Throw {A} e.
Arguments Query_ {A} q k.
Arguments Generate {A} model prompt k.

Fixpoint bind {A B} (p : Prog A) (f : A → Prog B) : Prog B :=
  match p with
  | Ret a => f a
  | Throw e => Throw e
  | Query_ q k => Query_ q (λ r, bind (k r) f)
  | Generate md m k => Generate md m (λ o, bind (k o) f)
  end.

#[export] Instance Prog_ret : MRet Prog := @Ret.
#[export] Instance Prog_bind : MBind Prog := λ A B f p, bind p f.

(** [try { p } catch (error) { h error }] *)
Fixpoint try_catch {A} (p : Prog A) (h : JsError → Prog A) : Prog A :=
  match p with
  | Ret a => Ret a
  | Throw e => h e
  | Query_ q k => Query_ q (λ r, try_catch (k r) h)
  | Generate md m k => Generate md m (λ o, try_catch (k o) h)
  end.

(** [await <query>] *)
Definition await (q : Query) : Prog Reply := Query_ q Ret.

(** [genAI.getGenerativeModel({ model: name })]: a handle on the named
    model; no request is sent yet. *)
Definition getGenerativeModel (name : string) : string := name.

(** [await model.generateContent(prompt)]: a rejected promise throws at the
    [await]. *)
Definition generateContent (model : string) (prompt : value)
  : Prog GenerateContentResult :=
  Generate model prompt
    (λ o, match o with inl e => Throw e | inr r => Ret r end).

(** [response.text()] *)
Definition call_text (r : GenerateContentResult) : Prog string :=
  match text r with inl e => Throw e | inr s => Ret s end.

(** Reading [.length] or an index of [data]: a [TypeError] when [data] is
    [null]. *)
Definition null_read : JsError :=
  {| message := "Cannot read properties of null" |}.

Definition rows_of (d : option (list object)) : Prog (list object) :=
  match d with None => Throw null_read | Some rows => Ret rows end.

(** [rows[0]] *)
Definition first_row (rows : list object) : value :=
  match rows with [] => VUndefined | r :: _ => VObj r end.

(** ** The route handlers

    A handler receives what the middleware made of the request: [req.body]
    is the object parsed by [express.json()], [req.query] maps the names of
    the query parameters to their text, and [req.params.id] is a string. *)

Definition server_error (e : JsError) : object :=
  {[ "error" := VStr "伺服器發生錯誤"; "details" := VStr (message e) ]}.

Definition server_error_full (e : JsError) : object :=
  <[ "fullError" := error_value e ]> (server_error e).

(** [app.get('/api/cards')] *)
Definition list_cards : Prog Response :=
  try_catch
    (r ← await (supabase.order "發卡機構" true
                  (supabase.select (supabase.from "credit_cards")));
     match error r with
     | Some e =>
         Ret (status_json 500 {[ "error" := VStr "無法讀取信用卡資料";
                                 "details" := VStr (message e) ]})
     | None =>
         rows ← rows_of (data r);
         Ret (json (VArr (VObj <$> rows)))
     end)
    (λ e, Ret (status_json 500 (server_error_full e))).

(** [req.query] of the filter route: the parsed query string. *)
Abbreviation query_string := (gmap string string).

(** [if (p)] on a query parameter: absent and empty are both falsy. *)
Definition given (p : option string) : bool :=
  match p with
  | None => false
  | Some s => negb (String.eqb s EmptyString)
  end.

(** [if (p) { query = query.ilike(column, `%${p}%`) }] *)
Definition narrow (column : string) (p : option string) (q : Query) : Query :=
  match p with
  | Some s => if given p then supabase.ilike column ("%" +:+ s +:+ "%") q else q
  | None => q
  end.

(** [app.get('/api/cards/filter')] *)
Definition filter_cards (query : query_string) : Prog Response :=
  try_catch
    (let category := query !! "category" in
     let region := query !! "region" in
     let q := supabase.select (supabase.from "credit_cards") in
     let q := narrow "消費種類" category q in
     let q := narrow "簽帳地區" region q in
     r ← await q;
     match error r with
     | Some e =>
         Ret (status_json 500 {[ "error" := VStr "無法讀取信用卡資料";
                                 "details" := VStr (message e) ]})
     | None =>
         rows ← rows_of (data r);
         Ret (json (VArr (VObj <$> rows)))
     end)
    (λ e, Ret (status_json 500 (server_error e))).

Definition requiredFields : list string :=
  ["發卡機構"; "卡名"; "消費種類"; "回饋數值"].

(** The validation loop of the create route: the response of the first
    iteration that returns, if any. *)
Fixpoint check_required (cardData : object) (fields : list string)
  : option Response :=
  match fields with
  | [] => None
  | field :: rest =>
      if negb (truthy (get cardData field))
      then Some (status_json 400
                   {[ "error" := VStr ("缺少必要欄位: " +:+ field) ]})
      else check_required cardData rest
  end.

(** [app.post('/api/cards')] *)
Definition create_card (cardData : object) : Prog Response :=
  try_catch
    (match check_required cardData requiredFields with
     | Some rejected => Ret rejected
     | None =>
         r ← await (supabase.select
                      (supabase.insert [cardData]
                         (supabase.from "credit_cards")));
         match error r with
         | Some e =>
             Ret (status_json 500 {[ "error" := VStr "無法新增信用卡資料";
                                     "details" := VStr (message e) ]})
         | None =>
             rows ← rows_of (data r);
             Ret (status_json 201 {[ "success" := VBool true;
                                     "data" := first_row rows ]})
         end
     end)
    (λ e, Ret (status_json 500 (server_error e))).

Definition not_found : Response :=
  status_json 404 {[ "error" := VStr "找不到該信用卡" ]}.

(** [app.put('/api/cards/:id')] *)
Definition update_card (id : string) (cardData : object) : Prog Response :=
  try_catch
    (r ← await (supabase.select
                  (supabase.eq "id" id
                     (supabase.update cardData
                        (supabase.from "credit_cards"))));
     match error r with
     | Some e =>
         Ret (status_json 500 {[ "error" := VStr "無法更新信用卡資料";
                                 "details" := VStr (message e) ]})
     | None =>
         rows ← rows_of (data r);
         if Nat.eqb (length rows) 0 then Ret not_found
         else Ret (json (VObj {[ "success" := VBool true;
                                 "data" := first_row rows ]}))
     end)
    (λ e, Ret (status_json 500 (server_error e))).

(** [app.delete('/api/cards/:id')] *)
Definition delete_card (id : string) : Prog Response :=
  try_catch
    (r ← await (supabase.select
                  (supabase.eq "id" id
                     (supabase.delete (supabase.from "credit_cards"))));
     match error r with
     | Some e =>
         Ret (status_json 500 {[ "error" := VStr "無法刪除信用卡資料";
                                 "details" := VStr (message e) ]})
     | None =>
         rows ← rows_of (data r);
         if Nat.eqb (length rows) 0 then Ret not_found
         else Ret (json (VObj {[ "success" := VBool true;
                                 "message" := VStr "信用卡已刪除" ]}))
     end)
    (λ e, Ret (status_json 500 (server_error e))).

(** The row the chat route logs. *)
Definition log_entry (prompt : value) (aiText : string) : object :=
  {[ "prompt" := prompt; "response" := VStr aiText ]}.

Definition log_write (prompt : value) (aiText : string) : Query :=
  supabase.insert [log_entry prompt aiText] (supabase.from "ai_logs").

(** [app.post('/api/chat')] *)
Definition chat (req_body : object) : Prog Response :=
  try_catch
    (let message := get req_body "message" in
     if negb (truthy message)
     then Ret (status_json 400 {[ "error" := VStr "請提供訊息 (message)" ]})
     else
       let model := getGenerativeModel "gemini-2.0-flash" in
       result ← generateContent model message;
       aiText ← call_text result;
       r ← await (log_write message aiText);
       Ret (json (VObj {[ "reply" := VStr aiText;
                          "saved" := VBool (negb (reported (error r))) ]})))
    (λ e, Ret (status_json 500 (server_error_full e))).

(** ** The row store

    The store is an external service; what follows is its contract as the
    handlers rely on it: tables of rows, and the meaning of the query
    operators that the handlers use.  Everything that can go wrong inside
    the service (an unreachable host, a missing relation, a constraint or
    type error) is a decision of the environment, see [fault] below. *)

Local Open Scope char_scope.

Definition lower_char (c : ascii) : ascii :=
  if (Ascii.leb "A" c && Ascii.leb c "Z")%bool
  then ascii_of_nat (nat_of_ascii c + 32)
  else c.

(** The service accepts [*] in a pattern as another spelling of [%]. *)
Definition star (c : ascii) : ascii := if Ascii.eqb c "*" then "%" else c.

Fixpoint map_string (f : ascii → ascii) (s : string) : string :=
  match s with
  | EmptyString => EmptyString
  | String c s' => String (f c) (map_string f s')
  end.

Definition lower : string → string := map_string lower_char.

(** SQL [LIKE]: [%] matches any run of characters, [_] any one character,
    and a backslash makes the next pattern character literal.  A pattern
    that ends in a lone backslash is malformed and matches nothing here; the
    patterns of the filter route end in [%] and are never of that kind. *)
Fixpoint like (p : string) : string → bool :=
  match p with
  | EmptyString => λ s, match s with EmptyString => true | _ => false end
  | String c p' =>
      if Ascii.eqb c "%" then
        fix skip (s : string) : bool :=
          (like p' s
           || match s with EmptyString => false | String _ s' => skip s' end)%bool
      else if Ascii.eqb c "_" then
        λ s, match s with EmptyString => false | String _ s' => like p' s' end
      else if Ascii.eqb c "\" then
        match p' with
        | EmptyString => λ _, false
        | String d p'' =>
            λ s, match s with
                 | EmptyString => false
                 | String x s' => (Ascii.eqb x d && like p'' s')%bool
                 end
        end
      else
        λ s, match s with
             | EmptyString => false
             | String x s' => (Ascii.eqb x c && like p' s')%bool
             end
  end.

Close Scope char_scope.

(** [column ILIKE pattern] as the service evaluates it: [*] is read as [%],
    then pattern and text are compared in lower case. *)
Definition ilike_match (pattern s : string) : bool :=
  like (lower (map_string star pattern)) (lower s).

(** A text cell of a row; [NULL] and absent cells satisfy no predicate. *)
Definition cell_text (r : object) (column : string) : option string :=
  match r !! column with
  | Some (VStr s) => Some s
  | _ => None
  end.

Definition holds (f : Filter) (r : object) : bool :=
  match f with
  | Ilike column pattern =>
      match cell_text r column with
      | Some s => ilike_match pattern s
      | None => false
      end
  | Eq column v =>
      match cell_text r column with
      | Some s => String.eqb s v
      | None => false
      end
  end.

Definition selected (q : Query) (r : object) : bool :=
  forallb (λ f, holds f r) (filters q).

Record Store : Type := mkStore {
  tables : gmap string (list object);
  next_id : N
}.

Definition rows_in (st : Store) (t : string) : list object :=
  default [] (tables st !! t).

(** The store gives a row without an [id] the next one of its sequence. *)
Fixpoint assign_ids (n : N) (rows : list object) : list object * N :=
  match rows with
  | [] => ([], n)
  | r :: rest =>
      match r !! "id" with
      | Some _ =>
          let '(rest', n') := assign_ids n rest in (r :: rest', n')
      | None =>
          let '(rest', n') := assign_ids (N.succ n) rest in
          (<[ "id" := VStr (pretty n) ]> r :: rest', n')
      end
  end.

(** ** The environment of a request *)

Inductive Event : Type :=
  | StoreCalled (q : Query)
  | ProviderCalled (model : string) (prompt : value).

Record Env : Type := mkEnv {
  (** what the completion provider does with a prompt: the promise rejects
      or resolves *)
  provider : string → value → JsError + GenerateContentResult;
  (** whether the store fails a call, and with which error *)
  fault : Store → Query → option JsError;
  (** the store's ordering of the cells of a column (collation, place of
      [NULL]) *)
  collate : value → value → bool
}.

Record World : Type := mkWorld {
  store : Store;
  trace : list Event
}.

Section Semantics.
Variable env : Env.

Definition row_le (column : string) (ascending : bool) : relation object :=
  λ r1 r2,
    Is_true (if ascending then collate env (get r1 column) (get r2 column)
             else collate env (get r2 column) (get r1 column)).

#[local] Instance row_le_dec column ascending : RelDecision (row_le column ascending).
Proof. intros r1 r2. unfold row_le. apply _. Defined.

Definition ordered (q : Query) (rows : list object) : list object :=
  match ordering q with
  | None => rows
  | Some (column, ascending) => merge_sort (row_le column ascending) rows
  end.

Definition answer (q : Query) (rows : list object) : Reply :=
  {| data := if returning q then Some rows else None; error := None |}.

(** One call to the store. *)
Definition exec (q : Query) (st : Store) : Reply * Store :=
  match fault env st q with
  | Some e => ({| data := None; error := Some e |}, st)
  | None =>
      let rows := rows_in st (table q) in
      match verb q with
      | Select =>
          (answer q (ordered q (List.filter (selected q) rows)), st)
      | Insert new =>
          let '(new', n') := assign_ids (next_id st) new in
          (answer q new',
           {| tables := <[ table q := rows ++ new' ]> (tables st);
              next_id := n' |})
      | Update patch =>
          (answer q ((λ r, patch ∪ r) <$> List.filter (selected q) rows),
           {| tables :=
                alter (fmap (λ r, if selected q r then patch ∪ r else r))
                      (table q) (tables st);
              next_id := next_id st |})
      | Delete =>
          (answer q (List.filter (selected q) rows),
           {| tables :=
                alter (List.filter (λ r, negb (selected q r)))
                      (table q) (tables st);
              next_id := next_id st |})
      end
  end.

Definition record (ev : Event) (st : Store) (w : World) : World :=
  {| store := st; trace := trace w ++ [ev] |}.

(** Running a handler: every outbound call is answered by the environment
    and appended to the trace. *)
Fixpoint run {A} (p : Prog A) (w : World) : (JsError + A) * World :=
  match p with
  | Ret a => (inr a, w)
  | Throw e => (inl e, w)
  | Query_ q k =>
      let '(r, st') := exec q (store w) in
      run (k r) (record (StoreCalled q) st' w)
  | Generate md m k =>
      run (k (provider env md m)) (record (ProviderCalled md m) (store w) w)
  end.
End Semantics.

(** ** Concrete environments, used to run the handlers on examples *)

(** Byte-wise lexicographic order on text. *)
Fixpoint lex_le (s t : string) : bool :=
  match s, t with
  | EmptyString, _ => true
  | String _ _, EmptyString => false
  | String a s', String b t' =>
      if (nat_of_ascii a <? nat_of_ascii b)%nat then true
      else if (nat_of_ascii a =? nat_of_ascii b)%nat then lex_le s' t'
      else false
  end.

(** Text cells in byte order, every other cell after them. *)
Definition collate_bytes (a b : value) : bool :=
  match a, b with
  | VStr s, VStr t => lex_le s t
  | VStr _, _ => true
  | _, VStr _ => false
  | _, _ => true
  end.

Definition replies (s : string)
  : string → value → JsError + GenerateContentResult :=
  λ _ _, inr {| text := inr s |}.

Definition rejects (msg : string)
  : string → value → JsError + GenerateContentResult :=
  λ _ _, inl {| message := msg |}.

(** A provider that answers ["hello"] and a store that works. *)
Definition env_fine : Env :=
  {| provider := replies "hello"; fault := λ _ _, None;
     collate := collate_bytes |}.

(** The provider answers, the store fails every call. *)
Definition env_store_down : Env :=
  {| provider := replies "hello";
     fault := λ _ _, Some {| message := "connection refused" |};
     collate := collate_bytes |}.

(** The provider is unreachable. *)
Definition env_provider_down : Env :=
  {| provider := rejects "fetch failed"; fault := λ _ _, None;
     collate := collate_bytes |}.

(** The provider answers with an empty completion. *)
Definition env_empty_completion : Env :=
  {| provider := replies EmptyString; fault := λ _ _, None;
     collate := collate_bytes |}.

Definition card (issuer category region : string) : object :=
  {[ "id" := VStr issuer; "發卡機構" := VStr issuer;
     "消費種類" := VStr category; "簽帳地區" := VStr region ]}.

Definition cards_demo : list object :=
  [ card "HSBC" "Dining" "local"; card "BOC" "travel" "overseas";
    card "Citi" "online dining" "Local" ].

Definition world_demo : World :=
  {| store := {| tables := {[ "credit_cards" := cards_demo ]}; next_id := 7 |};
     trace := [] |}.

Definition hi : object := {[ "message" := VStr "hi" ]}.

(** ** Vocabulary of the statements *)

Definition bad_request : Response :=
  {| status := 400; body := VObj {[ "error" := VStr "請提供訊息 (message)" ]} |}.

(** What the provider does with the prompt of a chat request. *)
Definition completion (env : Env) (prompt : value)
  : JsError + GenerateContentResult :=
  provider env "gemini-2.0-flash" prompt.

(** The call the chat route makes to the provider. *)
Definition asked (prompt : value) : Event :=
  ProviderCalled "gemini-2.0-flash" prompt.

(** The outbound calls of one chat request, in order. *)
Definition chat_calls (env : Env) (req_body : object) : list Event :=
  let msg := get req_body "message" in
  if truthy msg then
    asked msg ::
    match completion env msg with
    | inr {| text := inr s |} => [StoreCalled (log_write msg s)]
    | _ => []
    end
  else [].

(** The 400 response of the create route that names [field]. *)
Definition missing_field (field : string) : Response :=
  {| status := 400;
     body := VObj {[ "error" := VStr ("缺少必要欄位: " +:+ field) ]} |}.

(** The first required field, in the order of [requiredFields], whose value
    in the request is absent or falsy. *)
Definition first_missing (cardData : object) : option string :=
  List.find (λ field, negb (truthy (get cardData field))) requiredFields.

(** The query the create route sends. *)
Definition create_query (cardData : object) : Query :=
  supabase.select (supabase.insert [cardData] (supabase.from "credit_cards")).

Definition full_card : object :=
  {[ "發卡機構" := VStr "HSBC"; "卡名" := VStr "Red"; "消費種類" := VStr "online";
     "回饋數值" := VStr "4%" ]}.

(** A request whose only field is an empty card name. *)
Definition blank_name_card : object := {[ "卡名" := VStr EmptyString ]}.

(** [full_card] with a reward of 0. *)
Definition zero_reward_card : object :=
  <[ "回饋數值" := VNum (S754_zero false) ]> full_card.

(** The queries the update and delete routes send. *)
Definition update_query (id : string) (cardData : object) : Query :=
  supabase.select
    (supabase.eq "id" id (supabase.update cardData (supabase.from "credit_cards"))).

Definition delete_query (id : string) : Query :=
  supabase.select
    (supabase.eq "id" id (supabase.delete (supabase.from "credit_cards"))).

(** No record of the card table has this id. *)
Definition unknown_id (st : Store) (id : string) : Prop :=
  ∀ r, r ∈ rows_in st "credit_cards" → cell_text r "id" ≠ Some id.

(** The query the list route sends. *)
Definition list_query : Query :=
  supabase.order "發卡機構" true (supabase.select (supabase.from "credit_cards")).

(** Ascending order of the issuer cell, in the store's collation. *)
Definition by_issuer (env : Env) : relation object :=
  λ r1 r2, Is_true (collate env (get r1 "發卡機構") (get r2 "發卡機構")).

(** The query the filter route sends. *)
Definition filter_query (query : query_string) : Query :=
  narrow "簽帳地區" (query !! "region")
    (narrow "消費種類" (query !! "category")
       (supabase.select (supabase.from "credit_cards"))).

(** [p] is a prefix of [s]. *)
Fixpoint is_prefix (p s : string) : bool :=
  match p, s with
  | EmptyString, _ => true
  | String _ _, EmptyString => false
  | String c p', String x s' => Ascii.eqb x c && is_prefix p' s'
  end.

(** [p] occurs in [s]. *)
Fixpoint contains (p s : string) : bool :=
  is_prefix p s
  || match s with
     | EmptyString => false
     | String _ s' => contains p s'
     end.

(** [p] occurs in [s], letter case ignored. *)
Definition contains_ci (p s : string) : bool := contains (lower p) (lower s).

Fixpoint all_chars (P : ascii → bool) (s : string) : bool :=
  match s with
  | EmptyString => true
  | String c s' => P c && all_chars P s'
  end.

(** The characters with a meaning of their own in a [LIKE] pattern. *)
Definition wild (c : ascii) : bool :=
  (Ascii.eqb c "%" || Ascii.eqb c "_" || Ascii.eqb c "\")%char.

(** A parameter value without pattern characters: no [%], [_], backslash
    or [*]. *)
Definition plain (p : string) : bool :=
  all_chars (λ c, negb (wild c || Ascii.eqb c "*"%char)) p.

Definition plain_param (p : option string) : bool :=
  match p with Some s => plain s | None => true end.

(** The constraint a query parameter puts on a row: none when the parameter
    is absent or empty, otherwise the text cell of the column must contain
    the parameter, letter case ignored. *)
Definition wanted (column : string) (p : option string) (r : object) : bool :=
  match p with
  | None => true
  | Some s =>
      if String.eqb s EmptyString then true
      else match cell_text r column with
           | Some t => contains_ci s t
           | None => false
           end
  end.

(** ** The health route *)

(** [app.get('/')] *)
Definition health : Prog Response :=
  Ret (json (VObj
    {[ "status" := VStr "OK";
       "message" := VStr "香港信用卡助手後端服務運行中";
       "endpoints" := VObj
         {[ "cards" := VObj
              {[ "getAll" := VStr "GET /api/cards";
                 "filter" := VStr "GET /api/cards/filter?category=dining&region=local";
                 "create" := VStr "POST /api/cards";
                 "update" := VStr "PUT /api/cards/:id";
                 "delete" := VStr "DELETE /api/cards/:id" ]};
            "ai" := VObj {[ "chat" := VStr "POST /api/chat" ]} ]} ]})).

(** ** Handlers against arbitrary services

    What a handler does by itself, whatever the store and the provider
    answer: the two services are any state machine that answers a query
    with a reply and a prompt with a resolved or rejected promise. *)

Record Service (S : Type) : Type := mkService {
  on_query : Query → S → Reply * S;
  on_prompt : string → value → S → (JsError + GenerateContentResult) * S
}.
Arguments on_query {S} _ _ _.
Arguments on_prompt {S} _ _ _ _.

Record Outcome (S A : Type) : Type := mkOutcome {
  result : JsError + A;
  final : S;
  calls : list Event
}.
Arguments result {S A} _.
Arguments final {S A} _.
Arguments calls {S A} _.

Fixpoint serve {S A} (sv : Service S) (p : Prog A) (s : S) (tr : list Event)
  : Outcome S A :=
  match p with
  | Ret a => {| result := inr a; final := s; calls := tr |}
  | Throw e => {| result := inl e; final := s; calls := tr |}
  | Query_ q k =>
      let '(r, s') := on_query sv q s in
      serve sv (k r) s' (tr ++ [StoreCalled q])
  | Generate md m k =>
      let '(o, s') := on_prompt sv md m s in
      serve sv (k o) s' (tr ++ [ProviderCalled md m])
  end.

(** The reference store and the provider of an environment, as services. *)
Definition reference (env : Env) : Service Store :=
  {| on_query := exec env;
     on_prompt := λ md m st, (provider env md m, st) |}.

(** The handler answers, with one of the given status codes. *)
Definition responds {S} (o : Outcome S Response) (codes : list nat) : Prop :=
  ∃ resp, result o = inr resp ∧ status resp ∈ codes.

(** The 500 response of a route whose store call reported [e]. *)
Definition store_failure (label : string) (e : JsError) : Response :=
  {| status := 500;
     body := VObj {[ "error" := VStr label; "details" := VStr (message e) ]} |}.

(** The record has this id. *)
Definition has_id (id : string) (r : object) : bool := holds (Eq "id" id) r.

(** A store that answers every query with neither data nor an error. *)
Definition silent : Service unit :=
  {| on_query := λ _ _, ({| data := None; error := None |}, ());
     on_prompt := λ _ _ _, (inl {| message := "no provider" |}, ()) |}.

(** Closing a goal [responds o codes] once the outcome is computed. *)
Ltac code_listed :=
  simpl; repeat first [apply list_elem_of_here | apply list_elem_of_further].

Ltac answered := eexists; split; [reflexivity | code_listed].

(** * Properties *)

(** ** The chat route *)

Lemma exec_error_fault env q st :
  error (exec env q st).1 = fault env st q.
Proof.
  unfold exec. destruct (fault env st q); [done|].
  destruct (verb q); try done. by destruct (assign_ids _ _).
Qed.

Lemma exec_failed env q st e :
  error (exec env q st).1 = Some e →
  exec env q st = ({| data := None; error := Some e |}, st).
Proof.
  rewrite exec_error_fault. unfold exec. by intros ->.
Qed.

(** C1: when the completion succeeds and the log write fails, the response
    is 200 with the generated text as [reply] and [saved] false. *)
Theorem chat_reply_survives_log_failure env w req_body aiText e :
  truthy (get req_body "message") = true →
  completion env (get req_body "message") = inr {| text := inr aiText |} →
  error (exec env (log_write (get req_body "message") aiText) (store w)).1
    = Some e →
  (run env (chat req_body) w).1
  = inr {| status := 200;
           body := VObj {[ "reply" := VStr aiText; "saved" := VBool false ]} |}.
Proof.
  intros Hmsg Hgen Hlog. unfold completion in Hgen.
  unfold chat, getGenerativeModel. simpl. rewrite Hmsg. simpl.
  rewrite Hgen. simpl.
  rewrite (exec_failed _ _ _ _ Hlog). simpl. done.
Qed.

Lemma chat_reply_survives_log_failure_witness :
  (run env_store_down (chat hi) world_demo).1
  = inr {| status := 200;
           body := VObj {[ "reply" := VStr "hello"; "saved" := VBool false ]} |}.
Proof.
  refine (chat_reply_survives_log_failure env_store_down world_demo hi
            "hello" {| message := "connection refused" |} _ _ _);
    reflexivity.
Defined.

(** C4: a chat request without a [message], or with the empty string as
    [message], is answered with 400; the world is left as it was, so the
    provider is not called and nothing is logged. *)
Theorem chat_rejects_missing_message env w req_body :
  req_body !! "message" = None ∨ req_body !! "message" = Some (VStr EmptyString) →
  run env (chat req_body) w = (inr bad_request, w).
Proof.
  intros H. unfold chat, get. by destruct H as [-> | ->].
Qed.

Lemma chat_rejects_missing_message_witness :
  run env_fine (chat ∅) world_demo = (inr bad_request, world_demo)
  ∧ run env_fine (chat {[ "message" := VStr EmptyString ]}) world_demo
    = (inr bad_request, world_demo).
Proof.
  split.
  - apply (chat_rejects_missing_message env_fine world_demo ∅).
    left. reflexivity.
  - apply (chat_rejects_missing_message env_fine world_demo
             {[ "message" := VStr EmptyString ]}).
    right. reflexivity.
Defined.

(** C2, as stated, fails: with the provider down the handler answers 500
    and the only outbound call is the one to the provider; the store is
    neither called nor changed. *)
Lemma chat_log_skipped_when_completion_fails :
  let r := run env_provider_down (chat hi) world_demo in
  r.1 = inr {| status := 500;
               body := VObj (server_error_full {| message := "fetch failed" |}) |}
  ∧ trace r.2 = [asked (VStr "hi")]
  ∧ store r.2 = store world_demo.
Proof. vm_compute. done. Qed.

(** C2, amended: the log write is attempted exactly when the message is
    truthy and the completion step returned a text; it is then the last
    call of the request, after the call to the provider. *)
Theorem chat_log_attempted_exactly_after_completion env w req_body :
  trace (run env (chat req_body) w).2 = trace w ++ chat_calls env req_body
  ∧ ((∃ q, StoreCalled q ∈ chat_calls env req_body)
     ↔ truthy (get req_body "message") = true
       ∧ ∃ s, completion env (get req_body "message") = inr {| text := inr s |}).
Proof.
  unfold chat, chat_calls, completion, asked, getGenerativeModel. simpl.
  destruct (truthy (get req_body "message")) eqn:Hmsg; simpl.
  2: { split; [by rewrite app_nil_r|].
       split; [intros [q Hq]; inversion Hq | intros [? _]; done]. }
  destruct (provider env _ (get req_body "message")) as [e|[[e|s]]] eqn:Hgen;
    simpl.
  - split; [done|]. split.
    + intros [q Hq]. apply list_elem_of_singleton in Hq. done.
    + intros [_ [s Hs]]. done.
  - split; [done|]. split.
    + intros [q Hq]. apply list_elem_of_singleton in Hq. done.
    + intros [_ [s Hs]]. done.
  - destruct (exec env _ _) as [r st'] eqn:Hexec. simpl.
    split; [by rewrite <- app_assoc|]. split.
    + intros _. eauto.
    + intros _. eexists. apply list_elem_of_further, list_elem_of_here.
Qed.

(** C5, as stated, fails: an empty completion is not a failure of the
    completion step.  The handler logs it and answers 200 with an empty
    [reply]. *)
Lemma chat_empty_completion_is_served :
  let r := run env_empty_completion (chat hi) world_demo in
  r.1 = inr {| status := 200;
               body := VObj {[ "reply" := VStr EmptyString; "saved" := VBool true ]} |}
  ∧ trace r.2
    = [asked (VStr "hi"); StoreCalled (log_write (VStr "hi") EmptyString)].
Proof. vm_compute. done. Qed.

(** C5, amended: when the completion step throws (the request to the
    provider rejects, or reading the text of its response throws) the
    response is 500 with the thrown error's message as [details], and the
    provider call is the only outbound call: the log write is not
    attempted.  A completion that returns a text, the empty one included,
    is logged and answered with 200. *)
Theorem chat_completion_outcomes env w req_body :
  truthy (get req_body "message") = true →
  (∀ e, completion env (get req_body "message") = inl e
        ∨ completion env (get req_body "message") = inr {| text := inl e |} →
     run env (chat req_body) w
     = (inr {| status := 500;
               body := VObj (<[ "fullError" := error_value e ]>
                               {[ "error" := VStr "伺服器發生錯誤";
                                  "details" := VStr (message e) ]}) |},
        {| store := store w;
           trace := trace w ++ [asked (get req_body "message")] |}))
  ∧ (∀ s, completion env (get req_body "message") = inr {| text := inr s |} →
     ∃ saved,
       (run env (chat req_body) w).1
       = inr {| status := 200;
                body := VObj {[ "reply" := VStr s; "saved" := VBool saved ]} |}
       ∧ trace (run env (chat req_body) w).2
         = trace w ++ [asked (get req_body "message");
                       StoreCalled (log_write (get req_body "message") s)]).
Proof.
  intros Hmsg. unfold completion, asked, chat, getGenerativeModel. simpl.
  rewrite Hmsg. simpl.
  split.
  - intros e [-> | ->]; reflexivity.
  - intros s ->. simpl.
    destruct (exec env _ _) as [r st'] eqn:Hexec. simpl.
    eexists. split; [reflexivity|]. by rewrite <- app_assoc.
Qed.

Lemma chat_completion_outcomes_witness :
  run env_provider_down (chat hi) world_demo
  = (inr {| status := 500;
            body := VObj (<[ "fullError" :=
                               error_value {| message := "fetch failed" |} ]>
                            {[ "error" := VStr "伺服器發生錯誤";
                               "details" := VStr "fetch failed" ]}) |},
     {| store := store world_demo;
        trace := [asked (VStr "hi")] |}).
Proof.
  refine (proj1 (chat_completion_outcomes env_provider_down world_demo hi _)
            {| message := "fetch failed" |} _).
  - reflexivity.
  - left. reflexivity.
Defined.

(** ** The create route *)

Lemma check_required_find cardData fields :
  check_required cardData fields
  = missing_field
      <$> List.find (λ field, negb (truthy (get cardData field))) fields.
Proof.
  induction fields as [|field rest IH]; simpl; [done|].
  by destruct (negb (truthy (get cardData field))).
Qed.

Lemma run_create_rejected env w cardData g :
  first_missing cardData = Some g →
  run env (create_card cardData) w = (inr (missing_field g), w).
Proof.
  intros Hg. unfold create_card. rewrite check_required_find.
  unfold first_missing in Hg. by rewrite Hg.
Qed.

Lemma first_missing_is_Some cardData f :
  f ∈ requiredFields → truthy (get cardData f) = false →
  ∃ g, first_missing cardData = Some g.
Proof.
  intros Hin Hf. unfold first_missing.
  destruct (List.find _ requiredFields) as [g|] eqn:Hfind; [eauto|].
  apply list_elem_of_In in Hin.
  pose proof (List.find_none _ _ Hfind f Hin) as Hno. simpl in Hno.
  by rewrite Hf in Hno.
Qed.

Lemma find_first_here {A} (P : A → bool) pre x post :
  (∀ y, y ∈ pre → P y = false) → P x = true →
  List.find P (pre ++ x :: post) = Some x.
Proof.
  intros Hpre Hx. induction pre as [|y pre IH]; simpl.
  - by rewrite Hx.
  - rewrite (Hpre y) by apply list_elem_of_here.
    apply IH. intros z Hz. apply Hpre. by apply list_elem_of_further.
Qed.

Lemma find_ext_in {A} (P Q : A → bool) l :
  (∀ x, P x = Q x) → List.find P l = List.find Q l.
Proof. intros H. induction l as [|x l IH]; simpl; [done|]. by rewrite H, IH. Qed.

Lemma truthy_get_delete cardData f h :
  truthy (get cardData f) = false →
  truthy (get (delete f cardData) h) = truthy (get cardData h).
Proof.
  intros Hf. unfold get. destruct (decide (f = h)) as [->|Hne].
  - rewrite lookup_delete_eq. simpl. by rewrite <- Hf.
  - by rewrite lookup_delete_ne.
Qed.

Lemma insert_outcome env w cardData :
  error (exec env (create_query cardData) (store w)).1 = None →
  ∃ row n',
    exec env (create_query cardData) (store w)
    = ({| data := Some [row]; error := None |},
       {| tables := <[ "credit_cards" :=
                         rows_in (store w) "credit_cards" ++ [row] ]>
                      (tables (store w));
          next_id := n' |})
    ∧ ∀ k, k ≠ "id" → row !! k = cardData !! k.
Proof.
  rewrite exec_error_fault. intros Hok. unfold exec. rewrite Hok. simpl.
  destruct (cardData !! "id") eqn:Hid.
  - exists cardData, (next_id (store w)). done.
  - exists (<[ "id" := VStr (pretty (next_id (store w))) ]> cardData),
      (N.succ (next_id (store w))).
    split; [done|]. intros k Hk. by rewrite lookup_insert_ne.
Qed.

Lemma all_truthy_none_missing cardData :
  (∀ f, f ∈ requiredFields → truthy (get cardData f) = true) →
  first_missing cardData = None.
Proof.
  intros Hall. unfold first_missing.
  destruct (List.find _ requiredFields) as [g|] eqn:Hfind; [|done].
  apply List.find_some in Hfind as [Hin Hg].
  apply list_elem_of_In in Hin. by rewrite (Hall g Hin) in Hg.
Qed.

(** C3, as stated, fails in its second half: a request with all four fields
    present and non-empty is answered with 500 when the store fails the
    insert, and with 400 when one of the values is the number 0. *)
Lemma create_full_card_not_always_201 :
  Forall (λ f, ∃ s, full_card !! f = Some (VStr s) ∧ s ≠ EmptyString) requiredFields
  ∧ (run env_store_down (create_card full_card) world_demo).1
    = inr {| status := 500;
             body := VObj {[ "error" := VStr "無法新增信用卡資料";
                             "details" := VStr "connection refused" ]} |}
  ∧ Forall (λ f, is_Some (zero_reward_card !! f)) requiredFields
  ∧ run env_fine (create_card zero_reward_card) world_demo
    = (inr (missing_field "回饋數值"), world_demo).
Proof.
  split; [|split; [|split]].
  - repeat constructor; eexists; (split; [reflexivity | discriminate]).
  - vm_compute. reflexivity.
  - repeat constructor; eexists; reflexivity.
  - vm_compute. reflexivity.
Qed.

(** C3, amended: when a required field is absent the response is 400 and
    names the first required field, in the order issuer, card name, spend
    category, reward value, that is absent or falsy; the world is left as it
    was, so the store is not called and nothing is persisted.  When all four
    values are truthy and the store reports no error for the insert, the
    response is 201 and carries the one record the store inserted, which has
    the fields of the request. *)
Theorem create_card_validation env w cardData :
  (∀ f, f ∈ requiredFields → cardData !! f = None →
     ∃ g, first_missing cardData = Some g
          ∧ run env (create_card cardData) w = (inr (missing_field g), w))
  ∧ ((∀ f, f ∈ requiredFields → truthy (get cardData f) = true) →
     error (exec env (create_query cardData) (store w)).1 = None →
     ∃ row,
       (run env (create_card cardData) w).1
       = inr {| status := 201;
                body := VObj {[ "success" := VBool true;
                                "data" := VObj row ]} |}
       ∧ trace (run env (create_card cardData) w).2
         = trace w ++ [StoreCalled (create_query cardData)]
       ∧ rows_in (store (run env (create_card cardData) w).2) "credit_cards"
         = rows_in (store w) "credit_cards" ++ [row]
       ∧ ∀ k, k ≠ "id" → row !! k = cardData !! k).
Proof.
  split.
  - intros f Hin Hf.
    destruct (first_missing_is_Some cardData f Hin) as [g Hg].
    { unfold get. by rewrite Hf. }
    exists g. split; [done|]. by apply run_create_rejected.
  - intros Hall Hok.
    destruct (insert_outcome env w cardData Hok) as (row & n' & Hexec & Hrow).
    exists row. unfold create_card. rewrite check_required_find.
    pose proof (all_truthy_none_missing cardData Hall) as Hnone.
    unfold first_missing in Hnone. rewrite Hnone. simpl.
    fold (create_query cardData). rewrite Hexec. simpl.
    repeat split; [|done].
    unfold rows_in at 1. simpl. by rewrite lookup_insert_eq.
Qed.

Lemma create_card_validation_witness :
  (∃ g, first_missing (delete "卡名" full_card) = Some g
        ∧ run env_fine (create_card (delete "卡名" full_card)) world_demo
          = (inr (missing_field g), world_demo))
  ∧ (∃ row,
       (run env_fine (create_card full_card) world_demo).1
       = inr {| status := 201;
                body := VObj {[ "success" := VBool true;
                                "data" := VObj row ]} |}
       ∧ trace (run env_fine (create_card full_card) world_demo).2
         = trace world_demo ++ [StoreCalled (create_query full_card)]
       ∧ rows_in (store (run env_fine (create_card full_card) world_demo).2)
           "credit_cards"
         = rows_in (store world_demo) "credit_cards" ++ [row]
       ∧ ∀ k, k ≠ "id" → row !! k = full_card !! k).
Proof.
  split.
  - apply (proj1 (create_card_validation env_fine world_demo
                    (delete "卡名" full_card)) "卡名").
    + unfold requiredFields. apply list_elem_of_further, list_elem_of_here.
    + reflexivity.
  - apply (proj2 (create_card_validation env_fine world_demo full_card)).
    + apply Forall_forall. unfold requiredFields. repeat constructor.
    + reflexivity.
Defined.

(** C9, as stated, fails: the response does not always name the falsy
    field.  The validation loop returns at the first required field that is
    absent or falsy, so a request whose only field is an empty card name is
    answered with the issuer named as missing. *)
Lemma create_names_the_first_missing_field :
  "卡名" ∈ requiredFields
  ∧ blank_name_card !! "卡名" = Some (VStr EmptyString)
  ∧ truthy (VStr EmptyString) = false
  ∧ run env_fine (create_card blank_name_card) world_demo
    = (inr (missing_field "發卡機構"), world_demo)
  ∧ missing_field "發卡機構" ≠ missing_field "卡名".
Proof.
  split; [|split; [|split; [|split]]].
  - unfold requiredFields. apply list_elem_of_further, list_elem_of_here.
  - reflexivity.
  - reflexivity.
  - vm_compute. reflexivity.
  - intros Hsame.
    apply (f_equal (λ r, match body r with
                         | VObj o => cell_text o "error"
                         | _ => None
                         end)) in Hsame.
    vm_compute in Hsame. discriminate Hsame.
Qed.

(** C9, amended: a required field that is present with a falsy value (the
    empty string, 0, false, null) is treated as missing.  The request is
    answered with 400 naming the first required field that is absent or
    falsy, which is that field when the fields before it are truthy; the
    answer and the world are those of the same request with the field
    removed. *)
Theorem create_falsy_field_is_missing env w cardData f v :
  f ∈ requiredFields → cardData !! f = Some v → truthy v = false →
  ∃ g, first_missing cardData = Some g
       ∧ run env (create_card cardData) w = (inr (missing_field g), w)
       ∧ run env (create_card (delete f cardData)) w
         = run env (create_card cardData) w
       ∧ (∀ pre post, requiredFields = pre ++ f :: post →
            (∀ h, h ∈ pre → truthy (get cardData h) = true) → g = f).
Proof.
  intros Hin Hf Hv.
  assert (truthy (get cardData f) = false) as Hfalsy.
  { unfold get. by rewrite Hf. }
  destruct (first_missing_is_Some cardData f Hin Hfalsy) as [g Hg].
  exists g. split; [done|].
  rewrite (run_create_rejected env w cardData g Hg).
  split; [done|]. split.
  - apply run_create_rejected. unfold first_missing in *.
    rewrite <- Hg. apply find_ext_in. intros h.
    by rewrite truthy_get_delete.
  - intros pre post Hsplit Hpre. unfold first_missing in Hg.
    rewrite Hsplit in Hg. rewrite find_first_here in Hg.
    + congruence.
    + intros h Hh. by rewrite (Hpre h Hh).
    + by rewrite Hfalsy.
Qed.

Lemma create_falsy_field_is_missing_witness :
  ∃ g, first_missing zero_reward_card = Some g
       ∧ run env_fine (create_card zero_reward_card) world_demo
         = (inr (missing_field g), world_demo)
       ∧ run env_fine (create_card (delete "回饋數值" zero_reward_card))
           world_demo
         = run env_fine (create_card zero_reward_card) world_demo
       ∧ (∀ pre post, requiredFields = pre ++ "回饋數值" :: post →
            (∀ h, h ∈ pre → truthy (get zero_reward_card h) = true) →
            g = "回饋數值").
Proof.
  apply (create_falsy_field_is_missing env_fine world_demo zero_reward_card
           "回饋數值" (VNum (S754_zero false))).
  - unfold requiredFields. repeat constructor.
  - reflexivity.
  - reflexivity.
Defined.

(** ** The update and delete routes *)

Lemma filter_nothing {A} (P : A → bool) l :
  (∀ x, x ∈ l → P x = false) → List.filter P l = [].
Proof.
  induction l as [|x l IH]; intros H; simpl; [done|].
  rewrite (H x) by apply list_elem_of_here.
  apply IH. intros y Hy. apply H. by apply list_elem_of_further.
Qed.

Lemma filter_everything {A} (P : A → bool) l :
  (∀ x, x ∈ l → P x = true) → List.filter P l = l.
Proof.
  induction l as [|x l IH]; intros H; simpl; [done|].
  rewrite (H x) by apply list_elem_of_here. f_equal.
  apply IH. intros y Hy. apply H. by apply list_elem_of_further.
Qed.

Lemma fmap_untouched {A} (P : A → bool) (f : A → A) (l : list A) :
  (∀ x, x ∈ l → P x = false) → (λ x, if P x then f x else x) <$> l = l.
Proof.
  induction l as [|x l IH]; intros H; simpl; [done|].
  rewrite (H x) by apply list_elem_of_here. f_equal.
  apply IH. intros y Hy. apply H. by apply list_elem_of_further.
Qed.

Lemma unknown_id_unselected st id q r :
  unknown_id st id → filters q = [Eq "id" id] →
  r ∈ rows_in st "credit_cards" → selected q r = false.
Proof.
  intros Hno Hq Hr. unfold selected. rewrite Hq. simpl.
  specialize (Hno r Hr). destruct (cell_text r "id") as [s|]; [|done].
  destruct (String.eqb_spec s id) as [->|]; [done|done].
Qed.

Lemma rows_in_lookup st t rows :
  tables st !! t = Some rows → rows_in st t = rows.
Proof. unfold rows_in. by intros ->. Qed.

Lemma update_unknown_id env st id cardData :
  unknown_id st id →
  error (exec env (update_query id cardData) st).1 = None →
  exec env (update_query id cardData) st
  = ({| data := Some []; error := None |}, st).
Proof.
  intros Hno. rewrite exec_error_fault. intros Hok.
  unfold exec. rewrite Hok. simpl.
  rewrite filter_nothing
    by (intros r; by apply (unknown_id_unselected st id)).
  unfold answer. simpl. rewrite alter_id; [by destruct st|].
  intros rows Hrows. apply fmap_untouched.
  intros r Hr. apply (unknown_id_unselected st id); [done..|].
  by rewrite (rows_in_lookup st _ rows Hrows).
Qed.

Lemma delete_unknown_id env st id :
  unknown_id st id →
  error (exec env (delete_query id) st).1 = None →
  exec env (delete_query id) st = ({| data := Some []; error := None |}, st).
Proof.
  intros Hno. rewrite exec_error_fault. intros Hok.
  unfold exec. rewrite Hok. simpl.
  rewrite filter_nothing
    by (intros r; by apply (unknown_id_unselected st id)).
  unfold answer. simpl. rewrite alter_id; [by destruct st|].
  intros rows Hrows. apply filter_everything.
  intros r Hr. apply negb_true_iff.
  apply (unknown_id_unselected st id); [done..|].
  by rewrite (rows_in_lookup st _ rows Hrows).
Qed.

(** C6: an update or a delete whose id matches no record, and whose store
    call reports no error, is answered with 404 and leaves the store as it
    was. *)
Theorem unknown_id_is_not_found env w id cardData :
  unknown_id (store w) id →
  (error (exec env (update_query id cardData) (store w)).1 = None →
   run env (update_card id cardData) w
   = (inr {| status := 404; body := VObj {[ "error" := VStr "找不到該信用卡" ]} |},
      {| store := store w;
         trace := trace w ++ [StoreCalled (update_query id cardData)] |}))
  ∧ (error (exec env (delete_query id) (store w)).1 = None →
     run env (delete_card id) w
     = (inr {| status := 404; body := VObj {[ "error" := VStr "找不到該信用卡" ]} |},
        {| store := store w;
           trace := trace w ++ [StoreCalled (delete_query id)] |})).
Proof.
  intros Hno. split; intros Hok.
  - unfold update_card. simpl. fold (update_query id cardData).
    by rewrite (update_unknown_id env _ id cardData Hno Hok).
  - unfold delete_card. simpl. fold (delete_query id).
    by rewrite (delete_unknown_id env _ id Hno Hok).
Qed.

Lemma unknown_id_is_not_found_witness :
  run env_fine (update_card "nope" full_card) world_demo
  = (inr {| status := 404; body := VObj {[ "error" := VStr "找不到該信用卡" ]} |},
     {| store := store world_demo;
        trace := [StoreCalled (update_query "nope" full_card)] |})
  ∧ run env_fine (delete_card "nope") world_demo
    = (inr {| status := 404; body := VObj {[ "error" := VStr "找不到該信用卡" ]} |},
       {| store := store world_demo;
          trace := [StoreCalled (delete_query "nope")] |}).
Proof.
  assert (unknown_id (store world_demo) "nope") as Hno.
  { unfold unknown_id. apply Forall_forall. repeat constructor; discriminate. }
  destruct (unknown_id_is_not_found env_fine world_demo "nope" full_card Hno)
    as [Hupdate Hdelete].
  split; [apply Hupdate | apply Hdelete]; reflexivity.
Defined.

(** ** The list route *)

Lemma lex_le_total s t : lex_le s t = true ∨ lex_le t s = true.
Proof.
  revert t. induction s as [|a s IH]; intros [|b t]; simpl; auto.
  destruct (Nat.ltb_spec (nat_of_ascii a) (nat_of_ascii b));
    destruct (Nat.ltb_spec (nat_of_ascii b) (nat_of_ascii a));
    destruct (Nat.eqb_spec (nat_of_ascii a) (nat_of_ascii b));
    destruct (Nat.eqb_spec (nat_of_ascii b) (nat_of_ascii a));
    auto; lia.
Qed.

Lemma lex_le_trans s t u :
  lex_le s t = true → lex_le t u = true → lex_le s u = true.
Proof.
  revert t u. induction s as [|a s IH]; intros [|b t] [|c u]; simpl; auto;
    try discriminate.
  destruct (Nat.ltb_spec (nat_of_ascii a) (nat_of_ascii b));
    destruct (Nat.ltb_spec (nat_of_ascii b) (nat_of_ascii c));
    destruct (Nat.ltb_spec (nat_of_ascii a) (nat_of_ascii c));
    destruct (Nat.eqb_spec (nat_of_ascii a) (nat_of_ascii b));
    destruct (Nat.eqb_spec (nat_of_ascii b) (nat_of_ascii c));
    destruct (Nat.eqb_spec (nat_of_ascii a) (nat_of_ascii c));
    try discriminate; try lia; auto.
  apply IH.
Qed.

Lemma collate_bytes_total a b :
  collate_bytes a b = true ∨ collate_bytes b a = true.
Proof. destruct a, b; simpl; auto using lex_le_total. Qed.

Lemma collate_bytes_trans a b c :
  collate_bytes a b = true → collate_bytes b c = true →
  collate_bytes a c = true.
Proof.
  destruct a, b, c; simpl; auto; try discriminate. apply lex_le_trans.
Qed.

Lemma selected_unfiltered q r : filters q = [] → selected q r = true.
Proof. unfold selected. by intros ->. Qed.

(** C8: a successful list request returns the card records in ascending
    order of their issuer, whatever the order in which the store holds
    them: the array is sorted and is a rearrangement of the stored
    records. *)
Theorem list_cards_sorted_by_issuer env w :
  (∀ a b, collate env a b = true ∨ collate env b a = true) →
  (∀ a b c, collate env a b = true → collate env b c = true →
            collate env a c = true) →
  error (exec env list_query (store w)).1 = None →
  ∃ out,
    (run env list_cards w).1
    = inr {| status := 200; body := VArr (VObj <$> out) |}
    ∧ StronglySorted (by_issuer env) out
    ∧ out ≡ₚ rows_in (store w) "credit_cards".
Proof.
  intros Htotal Htrans. rewrite exec_error_fault. intros Hok.
  assert (Total (row_le env "發卡機構" true)) as HT.
  { intros r1 r2. unfold row_le.
    destruct (Htotal (get r1 "發卡機構") (get r2 "發卡機構")) as [H|H];
      rewrite H; simpl; auto. }
  assert (Transitive (row_le env "發卡機構" true)) as HTr.
  { intros r1 r2 r3. unfold row_le. intros H12 H23.
    apply Is_true_true in H12, H23. apply Is_true_true. eauto. }
  exists (merge_sort (row_le env "發卡機構" true)
            (rows_in (store w) "credit_cards")).
  split; [|split].
  - unfold list_cards. simpl. fold list_query. unfold exec. rewrite Hok.
    simpl. unfold ordered. simpl.
    by rewrite filter_everything.
  - apply (StronglySorted_merge_sort (row_le env "發卡機構" true)).
  - apply merge_sort_Permutation.
Qed.

Lemma list_cards_sorted_by_issuer_witness :
  ∃ out,
    (run env_fine list_cards world_demo).1
    = inr {| status := 200; body := VArr (VObj <$> out) |}
    ∧ StronglySorted (by_issuer env_fine) out
    ∧ out ≡ₚ rows_in (store world_demo) "credit_cards".
Proof.
  apply (list_cards_sorted_by_issuer env_fine world_demo).
  - apply collate_bytes_total.
  - apply collate_bytes_trans.
  - reflexivity.
Defined.

(** On the demonstration store the list route answers BOC, Citi, HSBC. *)
Example list_cards_demo :
  (run env_fine list_cards world_demo).1
  = inr {| status := 200;
           body := VArr (VObj <$> [ card "BOC" "travel" "overseas";
                                    card "Citi" "online dining" "Local";
                                    card "HSBC" "Dining" "local" ]) |}.
Proof. vm_compute. reflexivity. Qed.

(** ** The filter route *)

Lemma contains_occurs q t :
  contains q t = true ↔ ∃ a b, t = a +:+ q +:+ b.
Proof.
  assert (∀ q t, is_prefix q t = true ↔ ∃ b, t = q +:+ b) as Hprefix.
  { clear. induction q as [|c q IH]; intros t; simpl.
    - split; [intros _; by exists t | done].
    - destruct t as [|x t]; simpl.
      + split; [done | intros [b Hb]; discriminate].
      + rewrite andb_true_iff, IH. split.
        * intros [Hx [b ->]]. apply Ascii.eqb_eq in Hx as ->. by exists b.
        * intros [b Hb]. injection Hb as -> ->.
          split; [apply Ascii.eqb_refl | by exists b]. }
  induction t as [|x t IH]; simpl; rewrite orb_true_iff, Hprefix.
  - split.
    + intros [[b Hb] | ?]; [|done]. by exists EmptyString, b.
    + intros (a & b & Hab). left. destruct a; [by exists b | discriminate].
  - rewrite IH. split.
    + intros [[b Hb] | (a & b & ->)]; [by exists EmptyString, b|].
      by exists (String x a), b.
    + intros ([|y a] & b & Hab); [left; by exists b|].
      right. injection Hab as -> ->. by exists a, b.
Qed.

Lemma map_string_app f s t :
  map_string f (s +:+ t) = map_string f s +:+ map_string f t.
Proof. induction s as [|c s IH]; simpl; [done|]. by rewrite IH. Qed.

Lemma wild_lower_char c : wild (lower_char c) = wild c.
Proof. destruct c as [[] [] [] [] [] [] [] []]; reflexivity. Qed.

Lemma plain_no_star p : plain p = true → map_string star p = p.
Proof.
  induction p as [|c p IH]; simpl; [done|].
  intros [Hc Hp]%andb_true_iff. rewrite (IH Hp). f_equal.
  unfold star. apply negb_true_iff, orb_false_iff in Hc as [_ ->]. done.
Qed.

Lemma plain_lower_literal p :
  plain p = true → all_chars (λ c, negb (wild c)) (lower p) = true.
Proof.
  unfold lower. induction p as [|c p IH]; simpl; [done|].
  intros [Hc Hp]%andb_true_iff. rewrite (IH Hp), wild_lower_char.
  apply negb_true_iff, orb_false_iff in Hc as [-> _]. done.
Qed.

(** A [%] matches the empty run or swallows one more character. *)
Lemma like_percent r t :
  like (String "%" r) t
  = like r t
    || match t with
       | EmptyString => false
       | String _ t' => like (String "%" r) t'
       end.
Proof. by destruct t. Qed.

Lemma like_any t : like "%" t = true.
Proof.
  induction t as [|x t IH]; [done|]. rewrite like_percent, IH.
  apply orb_true_r.
Qed.

(** A character that is not a pattern character matches itself. *)
Lemma like_literal_char c r t :
  wild c = false →
  like (String c r) t
  = match t with
    | EmptyString => false
    | String x t' => Ascii.eqb x c && like r t'
    end.
Proof.
  unfold wild. intros [[H1 H2]%orb_false_iff H3]%orb_false_iff.
  simpl. by rewrite H1, H2, H3.
Qed.

Lemma like_literal_prefix q t :
  all_chars (λ c, negb (wild c)) q = true →
  like (q +:+ "%") t = is_prefix q t.
Proof.
  revert t. induction q as [|c q IH]; intros t.
  - intros _. simpl String.app. rewrite like_any. by destruct t.
  - simpl all_chars. intros [Hc Hq]%andb_true_iff.
    apply negb_true_iff in Hc.
    change (String c q +:+ "%") with (String c (q +:+ "%")).
    rewrite (like_literal_char c _ t Hc). destruct t as [|x t]; [done|].
    simpl. by rewrite IH.
Qed.

Lemma like_between_percents q t :
  all_chars (λ c, negb (wild c)) q = true →
  like ("%" +:+ q +:+ "%") t = contains q t.
Proof.
  intros Hq. change ("%" +:+ q +:+ "%") with (String "%" (q +:+ "%")).
  induction t as [|x t IH]; rewrite like_percent, like_literal_prefix by done.
  - done.
  - simpl contains. by rewrite IH.
Qed.

(** For a parameter without pattern characters, the pattern the handler
    builds matches exactly the texts that contain the parameter, letter case
    ignored. *)
Lemma ilike_plain p t :
  plain p = true → ilike_match ("%" +:+ p +:+ "%") t = contains_ci p t.
Proof.
  intros Hp. unfold ilike_match, contains_ci.
  rewrite !map_string_app, (plain_no_star p Hp).
  unfold lower. rewrite !map_string_app.
  change (map_string lower_char (map_string star "%")) with "%".
  apply like_between_percents. by apply plain_lower_literal.
Qed.

Lemma narrow_query column p q :
  narrow column p q
  = {| table := table q; verb := verb q;
       filters := filters q
                  ++ match p with
                     | Some s => if given p then [Ilike column ("%" +:+ s +:+ "%")]
                                 else []
                     | None => []
                     end;
       ordering := ordering q; returning := returning q |}.
Proof.
  unfold narrow. destruct p as [s|]; [destruct (given (Some s))|];
    try (rewrite app_nil_r; by destruct q); done.
Qed.

Lemma selected_filter_query query r :
  plain_param (query !! "category") = true →
  plain_param (query !! "region") = true →
  selected (filter_query query) r
  = wanted "消費種類" (query !! "category") r
    && wanted "簽帳地區" (query !! "region") r.
Proof.
  intros Hc Hr. unfold filter_query, selected. rewrite !narrow_query. simpl.
  rewrite forallb_app. f_equal.
  - destruct (query !! "category") as [s|]; [|done]. simpl in *.
    destruct (String.eqb s EmptyString); simpl; [done|].
    destruct (cell_text r "消費種類"); [|done].
    by rewrite ilike_plain, andb_true_r.
  - destruct (query !! "region") as [s|]; [|done]. simpl in *.
    destruct (String.eqb s EmptyString); simpl; [done|].
    destruct (cell_text r "簽帳地區"); [|done].
    by rewrite ilike_plain, andb_true_r.
Qed.

Lemma filter_query_shape query :
  table (filter_query query) = "credit_cards"
  ∧ verb (filter_query query) = Select
  ∧ ordering (filter_query query) = None
  ∧ returning (filter_query query) = true.
Proof. unfold filter_query. by rewrite !narrow_query. Qed.

Lemma filter_ext_bool {A} (P Q : A → bool) l :
  (∀ x, P x = Q x) → List.filter P l = List.filter Q l.
Proof. intros H. induction l as [|x l IH]; simpl; [done|]. by rewrite H, IH. Qed.

(** C7, as stated, fails: the parameter is spliced into an [ILIKE] pattern
    as it comes, so its pattern characters keep their meaning.  With
    [category=d_ning] the cards whose category contains "dining" are
    returned, although none contains "d_ning". *)
Lemma filter_parameter_is_a_pattern :
  contains_ci "d_ning" "Dining" = false
  ∧ contains_ci "d_ning" "online dining" = false
  ∧ (run env_fine (filter_cards {[ "category" := "d_ning" ]}) world_demo).1
    = inr {| status := 200;
             body := VArr (VObj <$> [ card "HSBC" "Dining" "local";
                                      card "Citi" "online dining" "Local" ]) |}.
Proof. vm_compute. done. Qed.

(** C7, amended: a parameter that is present, not empty and free of the
    pattern characters [%], [_], backslash and [*] keeps the records whose
    corresponding text field contains it, letter case ignored; the
    constraints of the two parameters are combined with AND; an absent
    parameter puts no constraint. *)
Theorem filter_cards_conjunction_of_matches env w query :
  plain_param (query !! "category") = true →
  plain_param (query !! "region") = true →
  error (exec env (filter_query query) (store w)).1 = None →
  (run env (filter_cards query) w).1
  = inr {| status := 200;
           body := VArr (VObj <$>
                     List.filter
                       (λ r, wanted "消費種類" (query !! "category") r
                             && wanted "簽帳地區" (query !! "region") r)
                       (rows_in (store w) "credit_cards")) |}.
Proof.
  intros Hc Hr. rewrite exec_error_fault. intros Hok.
  unfold filter_cards. simpl. fold (filter_query query).
  destruct (filter_query_shape query) as (Ht & Hv & Ho & Hret).
  unfold exec. rewrite Hok, Hv. unfold answer, ordered. rewrite Hret, Ho, Ht.
  simpl.
  by rewrite (filter_ext_bool _ _ _ (λ r, selected_filter_query query r Hc Hr)).
Qed.

Lemma filter_cards_conjunction_of_matches_witness :
  (run env_fine (filter_cards {[ "category" := "DINING"; "region" := "local" ]})
     world_demo).1
  = inr {| status := 200;
           body := VArr (VObj <$> [ card "HSBC" "Dining" "local";
                                    card "Citi" "online dining" "Local" ]) |}.
Proof.
  rewrite (filter_cards_conjunction_of_matches env_fine world_demo
             {[ "category" := "DINING"; "region" := "local" ]})
    by reflexivity.
  vm_compute. reflexivity.
Defined.

(** C10: a [category] or [region] parameter that is present but empty puts
    no constraint: the request is served exactly as the request without
    that parameter. *)
Theorem filter_empty_parameter_is_absent env w query p :
  p = "category" ∨ p = "region" →
  query !! p = Some EmptyString →
  run env (filter_cards query) w = run env (filter_cards (delete p query)) w.
Proof.
  intros [-> | ->] Hp; unfold filter_cards.
  - rewrite lookup_delete_eq, lookup_delete_ne by done. by rewrite Hp.
  - rewrite lookup_delete_eq, lookup_delete_ne by done. by rewrite Hp.
Qed.

Lemma filter_empty_parameter_is_absent_witness :
  run env_fine (filter_cards {[ "category" := "dining"; "region" := EmptyString ]})
    world_demo
  = run env_fine
      (filter_cards (delete "region" {[ "category" := "dining"; "region" := EmptyString ]}))
      world_demo.
Proof.
  apply (filter_empty_parameter_is_absent env_fine world_demo
           {[ "category" := "dining"; "region" := EmptyString ]} "region").
  - right. reflexivity.
  - reflexivity.
Defined.

(** * Further properties of the handlers *)

(** ** Whatever the services answer *)

(** The reference environment is one pair of services: running a handler in
    it is serving the handler with [reference]. *)
Lemma run_is_serve env {A} (p : Prog A) w :
  run env p w
  = (result (serve (reference env) p (store w) (trace w)),
     {| store := final (serve (reference env) p (store w) (trace w));
        trace := calls (serve (reference env) p (store w) (trace w)) |}).
Proof.
  revert w. induction p as [a|e|q k IH|md m k IH]; intros w; simpl.
  - by destruct w.
  - by destruct w.
  - destruct (exec env q (store w)) as [r st']. by rewrite IH.
  - by rewrite IH.
Qed.

(** X1: no exception escapes a handler.  Whatever the store and the
    provider answer, every route produces a response, and its status is one
    of the codes of that route. *)
Theorem every_route_responds {S} (sv : Service S) s tr :
  responds (serve sv list_cards s tr) [200; 500]
  ∧ (∀ query, responds (serve sv (filter_cards query) s tr) [200; 500])
  ∧ (∀ cardData, responds (serve sv (create_card cardData) s tr) [201; 400; 500])
  ∧ (∀ id cardData,
       responds (serve sv (update_card id cardData) s tr) [200; 404; 500])
  ∧ (∀ id, responds (serve sv (delete_card id) s tr) [200; 404; 500])
  ∧ (∀ req_body, responds (serve sv (chat req_body) s tr) [200; 400; 500])
  ∧ responds (serve sv health s tr) [200].
Proof.
  unfold responds. repeat split.
  - unfold list_cards. simpl.
    destruct (on_query sv _ s) as [[[rows|] [e|]] s']; simpl; answered.
  - intros query. unfold filter_cards. simpl.
    destruct (on_query sv _ s) as [[[rows|] [e|]] s']; simpl; answered.
  - intros cardData. unfold create_card.
    destruct (check_required cardData requiredFields) as [rejected|] eqn:Hcheck.
    + rewrite check_required_find in Hcheck.
      destruct (List.find _ requiredFields); [|done].
      injection Hcheck as <-. simpl. answered.
    + simpl.
      destruct (on_query sv _ s) as [[[rows|] [e|]] s']; simpl; answered.
  - intros id cardData. unfold update_card. simpl.
    destruct (on_query sv _ s) as [[[[|r rows]|] [e|]] s']; simpl; answered.
  - intros id. unfold delete_card. simpl.
    destruct (on_query sv _ s) as [[[[|r rows]|] [e|]] s']; simpl; answered.
  - intros req_body. unfold chat, getGenerativeModel. simpl.
    destruct (truthy (get req_body "message")); simpl; [|answered].
    destruct (on_prompt sv _ _ s) as [[e|[[e|aiText]]] s1]; simpl;
      try answered.
    destruct (on_query sv _ s1) as [r s2]; simpl. answered.
  - simpl. answered.
Qed.

Lemma check_required_passed cardData :
  first_missing cardData = None →
  check_required cardData requiredFields = None.
Proof.
  intros Hnone. rewrite check_required_find.
  unfold first_missing in Hnone. by rewrite Hnone.
Qed.

(** X2: an error reported by the store is never dropped.  In each card
    route, when the reply to the route's query carries an error, the
    response is 500 with the route's own label as [error] and the message of
    the store's error as [details], whatever [data] holds. *)
Theorem store_error_becomes_500 {S} (sv : Service S) s tr e :
  (error (on_query sv list_query s).1 = Some e →
   result (serve sv list_cards s tr)
   = inr (store_failure "無法讀取信用卡資料" e))
  ∧ (∀ query,
       error (on_query sv (filter_query query) s).1 = Some e →
       result (serve sv (filter_cards query) s tr)
       = inr (store_failure "無法讀取信用卡資料" e))
  ∧ (∀ cardData,
       first_missing cardData = None →
       error (on_query sv (create_query cardData) s).1 = Some e →
       result (serve sv (create_card cardData) s tr)
       = inr (store_failure "無法新增信用卡資料" e))
  ∧ (∀ id cardData,
       error (on_query sv (update_query id cardData) s).1 = Some e →
       result (serve sv (update_card id cardData) s tr)
       = inr (store_failure "無法更新信用卡資料" e))
  ∧ (∀ id,
       error (on_query sv (delete_query id) s).1 = Some e →
       result (serve sv (delete_card id) s tr)
       = inr (store_failure "無法刪除信用卡資料" e)).
Proof.
  repeat split.
  - unfold list_cards. simpl. fold list_query.
    destruct (on_query sv list_query s) as [[d err] s']. simpl.
    by intros ->.
  - intros query. unfold filter_cards. simpl. fold (filter_query query).
    destruct (on_query sv (filter_query query) s) as [[d err] s']. simpl.
    by intros ->.
  - intros cardData Hvalid. unfold create_card.
    rewrite (check_required_passed cardData Hvalid). simpl.
    fold (create_query cardData).
    destruct (on_query sv (create_query cardData) s) as [[d err] s']. simpl.
    by intros ->.
  - intros id cardData. unfold update_card. simpl.
    fold (update_query id cardData).
    destruct (on_query sv (update_query id cardData) s) as [[d err] s'].
    simpl. by intros ->.
  - intros id. unfold delete_card. simpl. fold (delete_query id).
    destruct (on_query sv (delete_query id) s) as [[d err] s']. simpl.
    by intros ->.
Qed.

Lemma store_error_becomes_500_witness :
  result (serve (reference env_store_down) list_cards (store world_demo) [])
  = inr (store_failure "無法讀取信用卡資料" {| message := "connection refused" |})
  ∧ result (serve (reference env_store_down) (delete_card "HSBC")
              (store world_demo) [])
    = inr (store_failure "無法刪除信用卡資料" {| message := "connection refused" |}).
Proof.
  destruct (store_error_becomes_500 (reference env_store_down)
              (store world_demo) [] {| message := "connection refused" |})
    as (Hlist & _ & _ & _ & Hdelete).
  split; [apply Hlist | apply Hdelete]; reflexivity.
Defined.

(** X3: a reply with neither an error nor data does not reach the client as
    a success.  Reading the length or the first element of a [null] [data]
    throws, the throw is caught, and the response is the generic 500. *)
Theorem reply_without_data_becomes_500 {S} (sv : Service S) s tr :
  ((on_query sv list_query s).1 = {| data := None; error := None |} →
   ∃ e, result (serve sv list_cards s tr)
        = inr {| status := 500; body := VObj (server_error_full e) |})
  ∧ (∀ query,
       (on_query sv (filter_query query) s).1
       = {| data := None; error := None |} →
       ∃ e, result (serve sv (filter_cards query) s tr)
            = inr {| status := 500; body := VObj (server_error e) |})
  ∧ (∀ cardData,
       first_missing cardData = None →
       (on_query sv (create_query cardData) s).1
       = {| data := None; error := None |} →
       ∃ e, result (serve sv (create_card cardData) s tr)
            = inr {| status := 500; body := VObj (server_error e) |})
  ∧ (∀ id cardData,
       (on_query sv (update_query id cardData) s).1
       = {| data := None; error := None |} →
       ∃ e, result (serve sv (update_card id cardData) s tr)
            = inr {| status := 500; body := VObj (server_error e) |})
  ∧ (∀ id,
       (on_query sv (delete_query id) s).1
       = {| data := None; error := None |} →
       ∃ e, result (serve sv (delete_card id) s tr)
            = inr {| status := 500; body := VObj (server_error e) |}).
Proof.
  repeat split.
  - unfold list_cards. simpl. fold list_query.
    destruct (on_query sv list_query s) as [r s']. simpl.
    intros ->. simpl. by eexists.
  - intros query. unfold filter_cards. simpl. fold (filter_query query).
    destruct (on_query sv (filter_query query) s) as [r s']. simpl.
    intros ->. simpl. by eexists.
  - intros cardData Hvalid. unfold create_card.
    rewrite (check_required_passed cardData Hvalid). simpl.
    fold (create_query cardData).
    destruct (on_query sv (create_query cardData) s) as [r s']. simpl.
    intros ->. simpl. by eexists.
  - intros id cardData. unfold update_card. simpl.
    fold (update_query id cardData).
    destruct (on_query sv (update_query id cardData) s) as [r s']. simpl.
    intros ->. simpl. by eexists.
  - intros id. unfold delete_card. simpl. fold (delete_query id).
    destruct (on_query sv (delete_query id) s) as [r s']. simpl.
    intros ->. simpl. by eexists.
Qed.

Lemma reply_without_data_becomes_500_witness :
  (∃ e, result (serve silent list_cards () [])
        = inr {| status := 500; body := VObj (server_error_full e) |})
  ∧ (∃ e, result (serve silent (update_card "HSBC" full_card) () [])
          = inr {| status := 500; body := VObj (server_error e) |}).
Proof.
  destruct (reply_without_data_becomes_500 silent () [])
    as (Hlist & _ & _ & Hupdate & _).
  split; [apply Hlist | apply Hupdate]; reflexivity.
Defined.

(** X4: a card route sends its one query and nothing else.  Whatever the
    reply is, the query is not repeated and no other call is made; a create
    request that fails validation, and the health route, make no call at
    all. *)
Theorem card_routes_query_once {S} (sv : Service S) s tr :
  calls (serve sv list_cards s tr) = tr ++ [StoreCalled list_query]
  ∧ (∀ query,
       calls (serve sv (filter_cards query) s tr)
       = tr ++ [StoreCalled (filter_query query)])
  ∧ (∀ cardData,
       calls (serve sv (create_card cardData) s tr)
       = tr ++ match first_missing cardData with
               | Some _ => []
               | None => [StoreCalled (create_query cardData)]
               end)
  ∧ (∀ id cardData,
       calls (serve sv (update_card id cardData) s tr)
       = tr ++ [StoreCalled (update_query id cardData)])
  ∧ (∀ id,
       calls (serve sv (delete_card id) s tr)
       = tr ++ [StoreCalled (delete_query id)])
  ∧ calls (serve sv health s tr) = tr.
Proof.
  repeat split.
  - unfold list_cards. simpl.
    by destruct (on_query sv _ s) as [[[rows|] [e|]] s'].
  - intros query. unfold filter_cards. simpl.
    by destruct (on_query sv _ s) as [[[rows|] [e|]] s'].
  - intros cardData. unfold create_card. rewrite check_required_find.
    unfold first_missing.
    destruct (List.find _ requiredFields); simpl; [by rewrite app_nil_r|].
    by destruct (on_query sv _ s) as [[[rows|] [e|]] s'].
  - intros id cardData. unfold update_card. simpl.
    by destruct (on_query sv _ s) as [[[[|r rows]|] [e|]] s'].
  - intros id. unfold delete_card. simpl.
    by destruct (on_query sv _ s) as [[[[|r rows]|] [e|]] s'].
Qed.

(** ** Against the reference store *)

Lemma exec_select_store env q st : verb q = Select → (exec env q st).2 = st.
Proof. intros Hq. unfold exec. destruct (fault env st q); [done|]. by rewrite Hq. Qed.

(** X5: the two read routes leave the store as it was, whether the query
    succeeds or not. *)
Theorem read_routes_leave_the_store env w :
  store (run env list_cards w).2 = store w
  ∧ ∀ query, store (run env (filter_cards query) w).2 = store w.
Proof.
  split.
  - unfold list_cards. simpl. fold list_query.
    pose proof (exec_select_store env list_query (store w) eq_refl) as Hst.
    destruct (exec env list_query (store w)) as [[[rows|] [e|]] st'];
      simpl in *; by subst.
  - intros query. unfold filter_cards. simpl. fold (filter_query query).
    pose proof (exec_select_store env (filter_query query) (store w)) as Hst.
    destruct (filter_query_shape query) as (_ & Hverb & _).
    specialize (Hst Hverb).
    destruct (exec env (filter_query query) (store w)) as [[[rows|] [e|]] st'];
      simpl in *; by subst.
Qed.

Lemma has_id_cell id r : has_id id r = true ↔ cell_text r "id" = Some id.
Proof.
  unfold has_id. simpl. destruct (cell_text r "id") as [s|]; [|done].
  destruct (String.eqb_spec s id) as [->|Hne]; split; try done.
  intros [=]. done.
Qed.

Lemma selected_by_id q id r :
  filters q = [Eq "id" id] → selected q r = has_id id r.
Proof. unfold selected, has_id. intros ->. simpl. apply andb_true_r. Qed.

Lemma rows_in_alter (f : list object → list object) t tbl n :
  f [] = [] →
  rows_in {| tables := alter f t tbl; next_id := n |} t
  = f (default [] (tbl !! t)).
Proof.
  intros Hf. unfold rows_in. simpl. rewrite lookup_alter_eq.
  by destruct (tbl !! t).
Qed.

Lemma delete_outcome env st id :
  error (exec env (delete_query id) st).1 = None →
  (exec env (delete_query id) st).1
  = {| data := Some (List.filter (has_id id) (rows_in st "credit_cards"));
       error := None |}
  ∧ rows_in (exec env (delete_query id) st).2 "credit_cards"
    = List.filter (λ r, negb (has_id id r)) (rows_in st "credit_cards").
Proof.
  rewrite exec_error_fault. intros Hok. unfold exec. rewrite Hok. simpl.
  split.
  - unfold answer. simpl. do 2 f_equal. apply filter_ext_bool.
    intros r. by apply selected_by_id.
  - rewrite rows_in_alter by done. apply filter_ext_bool.
    intros r. f_equal. by apply selected_by_id.
Qed.

Lemma filter_has_witness {A} (P : A → bool) l x :
  x ∈ l → P x = true → List.filter P l ≠ [].
Proof.
  intros Hx HP Hnil. assert (In x (List.filter P l)) as Hin.
  { apply List.filter_In. split; [by apply list_elem_of_In | done]. }
  rewrite Hnil in Hin. done.
Qed.

Lemma run_delete env w id :
  error (exec env (delete_query id) (store w)).1 = None →
  (run env (delete_card id) w).1
  = inr (if Nat.eqb (length (List.filter (has_id id)
                                (rows_in (store w) "credit_cards"))) 0
         then not_found
         else json (VObj {[ "success" := VBool true;
                            "message" := VStr "信用卡已刪除" ]}))
  ∧ store (run env (delete_card id) w).2
    = (exec env (delete_query id) (store w)).2.
Proof.
  intros Hok. destruct (delete_outcome env (store w) id Hok) as [Hreply _].
  unfold delete_card. simpl. fold (delete_query id).
  destruct (exec env (delete_query id) (store w)) as [r st']. simpl in *.
  subst r. simpl.
  by destruct (Nat.eqb (length (List.filter (has_id id) _)) 0).
Qed.

(** X6: deleting a card that exists.  When some record has the id and the
    store reports no error, the response is 200 with the confirmation, and
    the card table afterwards holds the records with another id, in their
    order, and no record with this id. *)
Theorem delete_removes_the_card env w id :
  error (exec env (delete_query id) (store w)).1 = None →
  (∃ r, r ∈ rows_in (store w) "credit_cards" ∧ has_id id r = true) →
  (run env (delete_card id) w).1
  = inr {| status := 200;
           body := VObj {[ "success" := VBool true;
                           "message" := VStr "信用卡已刪除" ]} |}
  ∧ rows_in (store (run env (delete_card id) w).2) "credit_cards"
    = List.filter (λ r, negb (has_id id r)) (rows_in (store w) "credit_cards")
  ∧ unknown_id (store (run env (delete_card id) w).2) id.
Proof.
  intros Hok (r & Hr & Hid).
  destruct (run_delete env w id Hok) as [Hresp Hstore].
  destruct (delete_outcome env (store w) id Hok) as [_ Hrows].
  rewrite Hresp, Hstore, Hrows.
  pose proof (filter_has_witness (has_id id) _ r Hr Hid) as Hne.
  split; [|split].
  - by destruct (List.filter (has_id id) _).
  - done.
  - unfold unknown_id. rewrite Hrows. intros x Hx Hcell.
    apply list_elem_of_In, List.filter_In in Hx as [_ Hx].
    apply has_id_cell in Hcell. by rewrite Hcell in Hx.
Qed.

Lemma delete_removes_the_card_witness :
  (run env_fine (delete_card "BOC") world_demo).1
  = inr {| status := 200;
           body := VObj {[ "success" := VBool true;
                           "message" := VStr "信用卡已刪除" ]} |}
  ∧ rows_in (store (run env_fine (delete_card "BOC") world_demo).2) "credit_cards"
    = [ card "HSBC" "Dining" "local"; card "Citi" "online dining" "Local" ].
Proof.
  destruct (delete_removes_the_card env_fine world_demo "BOC")
    as (Hresp & Hrows & _).
  - reflexivity.
  - exists (card "BOC" "travel" "overseas"). split; [|reflexivity].
    apply list_elem_of_further, list_elem_of_here.
  - split; [exact Hresp|]. rewrite Hrows. vm_compute. reflexivity.
Defined.

(** X7: a delete that is repeated finds nothing.  After a delete whose
    store call reported no error, a second delete of the same id, again
    without a store error, is answered with 404. *)
Theorem delete_again_is_not_found env w id :
  error (exec env (delete_query id) (store w)).1 = None →
  error (exec env (delete_query id)
           (store (run env (delete_card id) w).2)).1 = None →
  (run env (delete_card id) (run env (delete_card id) w).2).1
  = inr {| status := 404; body := VObj {[ "error" := VStr "找不到該信用卡" ]} |}.
Proof.
  intros Hok1 Hok2.
  destruct (run_delete env w id Hok1) as [_ Hstore].
  destruct (delete_outcome env (store w) id Hok1) as [_ Hrows].
  destruct (run_delete env _ id Hok2) as [Hresp _]. rewrite Hresp.
  rewrite Hstore, Hrows.
  rewrite filter_nothing; [done|].
  intros x Hx. apply list_elem_of_In, List.filter_In in Hx as [_ Hx].
  by apply negb_true_iff.
Qed.

Lemma delete_again_is_not_found_witness :
  (run env_fine (delete_card "BOC")
     (run env_fine (delete_card "BOC") world_demo).2).1
  = inr {| status := 404; body := VObj {[ "error" := VStr "找不到該信用卡" ]} |}.
Proof.
  apply (delete_again_is_not_found env_fine world_demo "BOC"); reflexivity.
Defined.

Lemma fmap_ext_bool {A B} (f g : A → B) (l : list A) :
  (∀ x, f x = g x) → f <$> l = g <$> l.
Proof.
  intros H. induction l as [|x l IH]; [done|].
  rewrite !fmap_cons. by rewrite H, IH.
Qed.

Lemma filter_skips_prefix {A} (P : A → bool) pre x post :
  (∀ y, y ∈ pre → P y = false) → P x = true →
  List.filter P (pre ++ x :: post) = x :: List.filter P post.
Proof.
  intros Hpre Hx. rewrite List.filter_app, (filter_nothing P pre Hpre).
  simpl. by rewrite Hx.
Qed.

Lemma update_outcome env st id cardData :
  error (exec env (update_query id cardData) st).1 = None →
  (exec env (update_query id cardData) st).1
  = {| data := Some ((λ r, cardData ∪ r)
                       <$> List.filter (has_id id) (rows_in st "credit_cards"));
       error := None |}
  ∧ rows_in (exec env (update_query id cardData) st).2 "credit_cards"
    = (λ r, if has_id id r then cardData ∪ r else r)
        <$> rows_in st "credit_cards".
Proof.
  rewrite exec_error_fault. intros Hok. unfold exec. rewrite Hok. simpl.
  split.
  - unfold answer. simpl. do 3 f_equal. apply filter_ext_bool.
    intros r. by apply selected_by_id.
  - rewrite rows_in_alter by done. apply fmap_ext_bool.
    intros r. by rewrite (selected_by_id _ id r).
Qed.

(** X8: updating a card that exists.  For a request that carries at least
    one field and a store call that reports no error, the response is 200
    and carries the first record with the id, in which the fields of the
    request replace the stored ones and every other field is as stored; in
    the card table the records with another id are untouched.  (The store
    model is only meant for updates that set something, hence the first
    premise.) *)
Theorem update_replaces_given_fields env w id cardData pre r post :
  cardData ≠ ∅ →
  error (exec env (update_query id cardData) (store w)).1 = None →
  rows_in (store w) "credit_cards" = pre ++ r :: post →
  (∀ x, x ∈ pre → has_id id x = false) →
  has_id id r = true →
  (run env (update_card id cardData) w).1
  = inr {| status := 200;
           body := VObj {[ "success" := VBool true;
                           "data" := VObj (cardData ∪ r) ]} |}
  ∧ (∀ k, (cardData ∪ r) !! k
          = match cardData !! k with Some v => Some v | None => r !! k end)
  ∧ rows_in (store (run env (update_card id cardData) w).2) "credit_cards"
    = (λ x, if has_id id x then cardData ∪ x else x)
        <$> rows_in (store w) "credit_cards".
Proof.
  intros _ Hok Hrows Hpre Hr.
  destruct (update_outcome env (store w) id cardData Hok) as [Hreply Htable].
  unfold update_card. simpl. fold (update_query id cardData).
  destruct (exec env (update_query id cardData) (store w)) as [reply st'].
  simpl in *. subst reply. simpl.
  rewrite Hrows, (filter_skips_prefix _ pre r post Hpre Hr). simpl.
  split; [done|]. split; [|by rewrite <- Hrows].
  intros k. rewrite lookup_union.
  by destruct (cardData !! k), (r !! k).
Qed.

Lemma update_replaces_given_fields_witness :
  (run env_fine (update_card "BOC" {[ "消費種類" := VStr "dining" ]}) world_demo).1
  = inr {| status := 200;
           body := VObj {[ "success" := VBool true;
                           "data" := VObj (card "BOC" "dining" "overseas") ]} |}.
Proof.
  destruct (update_replaces_given_fields env_fine world_demo "BOC"
              {[ "消費種類" := VStr "dining" ]}
              [card "HSBC" "Dining" "local"] (card "BOC" "travel" "overseas")
              [card "Citi" "online dining" "Local"])
    as (Hresp & _ & _).
  - intros Hempty.
    assert (({[ "消費種類" := VStr "dining" ]} : object) !! "消費種類" = None)
      as Habsurd by (rewrite Hempty; apply lookup_empty).
    discriminate Habsurd.
  - reflexivity.
  - reflexivity.
  - intros x Hx. apply list_elem_of_singleton in Hx as ->. reflexivity.
  - reflexivity.
  - rewrite Hresp. vm_compute. reflexivity.
Defined.

Lemma run_list_ok env w :
  error (exec env list_query (store w)).1 = None →
  (run env list_cards w).1
  = inr {| status := 200;
           body := VArr (VObj <$> merge_sort (row_le env "發卡機構" true)
                                    (rows_in (store w) "credit_cards")) |}.
Proof.
  rewrite exec_error_fault. intros Hok.
  unfold list_cards. simpl. fold list_query. unfold exec. rewrite Hok.
  simpl. unfold ordered. simpl. by rewrite filter_everything.
Qed.

Lemma run_create_ok env w cardData :
  first_missing cardData = None →
  error (exec env (create_query cardData) (store w)).1 = None →
  ∃ row,
    (run env (create_card cardData) w).1
    = inr {| status := 201;
             body := VObj {[ "success" := VBool true; "data" := VObj row ]} |}
    ∧ rows_in (store (run env (create_card cardData) w).2) "credit_cards"
      = rows_in (store w) "credit_cards" ++ [row]
    ∧ ∀ k, k ≠ "id" → row !! k = cardData !! k.
Proof.
  intros Hvalid Hok.
  destruct (insert_outcome env w cardData Hok) as (row & n' & Hexec & Hrow).
  exists row. unfold create_card.
  rewrite (check_required_passed cardData Hvalid). simpl.
  fold (create_query cardData). rewrite Hexec. simpl.
  split; [done|]. split; [|done].
  unfold rows_in at 1. simpl. by rewrite lookup_insert_eq.
Qed.

(** X9: a created card is listed.  After a create request answered with
    201, a list request whose store call reports no error returns the
    stored records together with the created one, which has the fields of
    the create request. *)
Theorem created_card_is_listed env w cardData :
  first_missing cardData = None →
  error (exec env (create_query cardData) (store w)).1 = None →
  error (exec env list_query
           (store (run env (create_card cardData) w).2)).1 = None →
  ∃ row out,
    (run env (create_card cardData) w).1
    = inr {| status := 201;
             body := VObj {[ "success" := VBool true; "data" := VObj row ]} |}
    ∧ (run env list_cards (run env (create_card cardData) w).2).1
      = inr {| status := 200; body := VArr (VObj <$> out) |}
    ∧ row ∈ out
    ∧ out ≡ₚ rows_in (store w) "credit_cards" ++ [row]
    ∧ ∀ k, k ≠ "id" → row !! k = cardData !! k.
Proof.
  intros Hvalid Hcreate Hlist.
  destruct (run_create_ok env w cardData Hvalid Hcreate)
    as (row & Hresp & Hrows & Hrow).
  exists row, (merge_sort (row_le env "發卡機構" true)
                 (rows_in (store w) "credit_cards" ++ [row])).
  split; [done|]. split; [by rewrite (run_list_ok env _ Hlist), Hrows|].
  split; [|split; [apply merge_sort_Permutation | done]].
  rewrite merge_sort_Permutation. apply elem_of_app. right.
  apply list_elem_of_here.
Qed.

Lemma created_card_is_listed_witness :
  ∃ row out,
    (run env_fine (create_card full_card) world_demo).1
    = inr {| status := 201;
             body := VObj {[ "success" := VBool true; "data" := VObj row ]} |}
    ∧ (run env_fine list_cards (run env_fine (create_card full_card) world_demo).2).1
      = inr {| status := 200; body := VArr (VObj <$> out) |}
    ∧ row ∈ out
    ∧ out ≡ₚ rows_in (store world_demo) "credit_cards" ++ [row]
    ∧ ∀ k, k ≠ "id" → row !! k = full_card !! k.
Proof.
  apply (created_card_is_listed env_fine world_demo full_card); reflexivity.
Defined.

Lemma filter_sublist_mono {A} (P Q : A → bool) l :
  (∀ x, P x = true → Q x = true) →
  List.filter P l `sublist_of` List.filter Q l.
Proof.
  intros HPQ. induction l as [|x l IH]; simpl; [constructor|].
  destruct (P x) eqn:HP.
  - rewrite (HPQ x HP). by apply sublist_skip.
  - destruct (Q x); [by apply sublist_cons | done].
Qed.

Lemma filter_sublist {A} (P : A → bool) l : List.filter P l `sublist_of` l.
Proof.
  induction l as [|x l IH]; simpl; [constructor|].
  destruct (P x); [by apply sublist_skip | by apply sublist_cons].
Qed.

Lemma run_filter_ok env w query :
  error (exec env (filter_query query) (store w)).1 = None →
  (run env (filter_cards query) w).1
  = inr {| status := 200;
           body := VArr (VObj <$> List.filter (selected (filter_query query))
                                    (rows_in (store w) "credit_cards")) |}.
Proof.
  rewrite exec_error_fault. intros Hok.
  unfold filter_cards. simpl. fold (filter_query query).
  destruct (filter_query_shape query) as (Ht & Hv & Ho & Hret).
  unfold exec. rewrite Hok, Hv. unfold answer, ordered.
  by rewrite Hret, Ho, Ht.
Qed.

(** X10: a filter request returns stored records in the order of the store.
    Whatever the parameters are, pattern characters included, the array is
    obtained from the card table by leaving records out: nothing is
    reordered, repeated or made up. *)
Theorem filtered_records_keep_store_order env w query :
  error (exec env (filter_query query) (store w)).1 = None →
  ∃ out,
    (run env (filter_cards query) w).1
    = inr {| status := 200; body := VArr (VObj <$> out) |}
    ∧ out `sublist_of` rows_in (store w) "credit_cards".
Proof.
  intros Hok. eexists. split; [by apply run_filter_ok|].
  apply filter_sublist.
Qed.

Lemma filtered_records_keep_store_order_witness :
  ∃ out,
    (run env_fine (filter_cards {[ "category" := "%in%" ]}) world_demo).1
    = inr {| status := 200; body := VArr (VObj <$> out) |}
    ∧ out `sublist_of` rows_in (store world_demo) "credit_cards".
Proof.
  apply (filtered_records_keep_store_order env_fine world_demo
           {[ "category" := "%in%" ]}).
  reflexivity.
Defined.

Lemma selected_without_parameter query p r :
  selected (filter_query query) r = true →
  selected (filter_query (delete p query)) r = true.
Proof.
  unfold selected, filter_query. rewrite !narrow_query. simpl.
  rewrite !forallb_app. intros [Hc Hr]%andb_true_iff.
  apply andb_true_iff. split.
  - destruct (decide (p = "category")) as [->|Hne].
    + by rewrite lookup_delete_eq.
    + by rewrite lookup_delete_ne.
  - destruct (decide (p = "region")) as [->|Hne].
    + by rewrite lookup_delete_eq.
    + by rewrite lookup_delete_ne.
Qed.

(** X11: a parameter only narrows.  Every record returned for a filter
    request is also returned, in the same relative order, for the request
    with one parameter removed; this holds for any parameter values. *)
Theorem dropping_a_parameter_keeps_records env w query p :
  error (exec env (filter_query query) (store w)).1 = None →
  error (exec env (filter_query (delete p query)) (store w)).1 = None →
  ∃ out out',
    (run env (filter_cards query) w).1
    = inr {| status := 200; body := VArr (VObj <$> out) |}
    ∧ (run env (filter_cards (delete p query)) w).1
      = inr {| status := 200; body := VArr (VObj <$> out') |}
    ∧ out `sublist_of` out'.
Proof.
  intros Hok Hok'. do 2 eexists.
  split; [by apply run_filter_ok|]. split; [by apply run_filter_ok|].
  apply filter_sublist_mono. intros r. apply selected_without_parameter.
Qed.

Lemma dropping_a_parameter_keeps_records_witness :
  ∃ out out',
    (run env_fine (filter_cards {[ "category" := "dining"; "region" := "local" ]})
       world_demo).1
    = inr {| status := 200; body := VArr (VObj <$> out) |}
    ∧ (run env_fine
         (filter_cards (delete "region" {[ "category" := "dining"; "region" := "local" ]}))
         world_demo).1
      = inr {| status := 200; body := VArr (VObj <$> out') |}
    ∧ out `sublist_of` out'.
Proof.
  apply (dropping_a_parameter_keeps_records env_fine world_demo
           {[ "category" := "dining"; "region" := "local" ]} "region");
    reflexivity.
Defined.

Lemma exec_other_table env q st t :
  table q ≠ t → rows_in (exec env q st).2 t = rows_in st t.
Proof.
  intros Hne. unfold exec. destruct (fault env st q); [done|].
  destruct (verb q); simpl; [done| | |].
  - destruct (assign_ids _ _) as [new' n']. unfold rows_in. simpl.
    by rewrite lookup_insert_ne.
  - unfold rows_in. simpl. by rewrite lookup_alter_ne.
  - unfold rows_in. simpl. by rewrite lookup_alter_ne.
Qed.

(** X12: each route keeps to its table.  The chat route never changes the
    card table, and no card route changes the log table, whatever the
    request and the environment. *)
Theorem routes_keep_to_their_table env w :
  (∀ req_body,
     rows_in (store (run env (chat req_body) w).2) "credit_cards"
     = rows_in (store w) "credit_cards")
  ∧ (∀ cardData,
       rows_in (store (run env (create_card cardData) w).2) "ai_logs"
       = rows_in (store w) "ai_logs")
  ∧ (∀ id cardData,
       rows_in (store (run env (update_card id cardData) w).2) "ai_logs"
       = rows_in (store w) "ai_logs")
  ∧ (∀ id,
       rows_in (store (run env (delete_card id) w).2) "ai_logs"
       = rows_in (store w) "ai_logs").
Proof.
  repeat split.
  - intros req_body. unfold chat, getGenerativeModel. simpl.
    destruct (truthy (get req_body "message")); simpl; [|done].
    destruct (provider env _ _) as [e|[[e|aiText]]]; simpl; try done.
    pose proof (exec_other_table env
                  (log_write (get req_body "message") aiText) (store w)
                  "credit_cards") as Hkeep.
    destruct (exec env _ (store w)) as [r st']. simpl in *. by apply Hkeep.
  - intros cardData. unfold create_card.
    destruct (check_required cardData requiredFields); simpl; [done|].
    fold (create_query cardData).
    pose proof (exec_other_table env (create_query cardData) (store w)
                  "ai_logs") as Hkeep.
    destruct (exec env _ (store w)) as [[[rows|] [e|]] st']; simpl in *;
      by apply Hkeep.
  - intros id cardData. unfold update_card. simpl.
    fold (update_query id cardData).
    pose proof (exec_other_table env (update_query id cardData) (store w)
                  "ai_logs") as Hkeep.
    destruct (exec env _ (store w)) as [[[[|r rows]|] [e|]] st']; simpl in *;
      by apply Hkeep.
  - intros id. unfold delete_card. simpl. fold (delete_query id).
    pose proof (exec_other_table env (delete_query id) (store w)
                  "ai_logs") as Hkeep.
    destruct (exec env _ (store w)) as [[[[|r rows]|] [e|]] st']; simpl in *;
      by apply Hkeep.
Qed.

(** X13: a chat exchange that is saved is in the log.  When the completion
    returns a text and the store reports no error for the insert, the
    response is 200 with [saved] true, and the log table has gained exactly
    one row, whose [prompt] is the message of the request and whose
    [response] is the generated text. *)
Theorem chat_logs_the_exchange env w req_body aiText :
  truthy (get req_body "message") = true →
  completion env (get req_body "message") = inr {| text := inr aiText |} →
  error (exec env (log_write (get req_body "message") aiText) (store w)).1
    = None →
  ∃ row,
    (run env (chat req_body) w).1
    = inr {| status := 200;
             body := VObj {[ "reply" := VStr aiText; "saved" := VBool true ]} |}
    ∧ rows_in (store (run env (chat req_body) w).2) "ai_logs"
      = rows_in (store w) "ai_logs" ++ [row]
    ∧ row !! "prompt" = Some (get req_body "message")
    ∧ row !! "response" = Some (VStr aiText).
Proof.
  intros Hmsg Hgen. rewrite exec_error_fault. intros Hok.
  unfold completion in Hgen.
  exists (<[ "id" := VStr (pretty (next_id (store w))) ]>
            (log_entry (get req_body "message") aiText)).
  unfold chat, getGenerativeModel. simpl. rewrite Hmsg. simpl.
  rewrite Hgen. simpl. unfold exec. rewrite Hok. simpl.
  assert (log_entry (get req_body "message") aiText !! "id" = None) as ->
    by reflexivity.
  simpl. split; [done|]. split; [|split].
  - unfold rows_in at 1. simpl. by rewrite lookup_insert_eq.
  - reflexivity.
  - reflexivity.
Qed.

Lemma chat_logs_the_exchange_witness :
  ∃ row,
    (run env_fine (chat hi) world_demo).1
    = inr {| status := 200;
             body := VObj {[ "reply" := VStr "hello"; "saved" := VBool true ]} |}
    ∧ rows_in (store (run env_fine (chat hi) world_demo).2) "ai_logs"
      = rows_in (store world_demo) "ai_logs" ++ [row]
    ∧ row !! "prompt" = Some (get hi "message")
    ∧ row !! "response" = Some (VStr "hello").
Proof.
  apply (chat_logs_the_exchange env_fine world_demo hi "hello"); reflexivity.
Defined.
